(** * Thin-film boundary-value scripts: a shallow embedding

    The repository is a collection of Python scripts that set up the
    third-order equation  h''' = -0.01 / (h^2 + h)  as a first-order system
    for [scipy.integrate.solve_bvp] / [solve_ivp], together with one script
    that plots the Cox-Voinov law.  This file embeds the functions those
    scripts define (right-hand sides, boundary residuals, initial guesses,
    post-solve evaluation, closed-form profiles) and proves properties of
    them.

    Numbers.  A Python float is modelled by the real number it stands for.
    What is modelled there is the point where NumPy leaves the real numbers:
    a division by zero, the logarithm of a non-positive number or a
    fractional power of a negative number make NumPy emit a RuntimeWarning
    and store inf or nan.  Such an operation ends the computation with
    [Err NonFinite]; Python exceptions proper end it with [Err IndexError]
    or [Err ValueError].  Where a statement depends on rounding, the
    right-hand sides are also evaluated on binary64 floats ([Float64]) and
    over the reals with a rounding after every operation ([Rounded]). *)

From Stdlib Require Import Floats.
From Stdlib Require Import String.
From Stdlib Require Import Reals Lra Lia List Arith Bool.
Import ListNotations.
Open Scope R_scope.

(* A decimal float literal stands for the nearest binary64 value, as it
   does in Python. *)
Set Warnings "-inexact-float".

(** ** Results and errors *)

(** [IndexError] and [ValueError] are the Python exceptions, [NonFinite] an
    operation that leaves the real numbers, [ConfigurationError] the refusal
    of an invalid solver configuration, [OutOfFuel] a refinement loop whose
    rounds ran out. *)
Inductive error : Type :=
| IndexError
| ValueError
| NonFinite
| ConfigurationError
| OutOfFuel.

Inductive result (A : Type) : Type :=
| Ok (a : A)
| Err (e : error).

Arguments Ok {A} a.
Arguments Err {A} e.

Definition bind {A B : Type} (c : result A) (k : A -> result B) : result B :=
  match c with
  | Ok a => k a
  | Err e => Err e
  end.

Notation "x <- c ;; k" := (bind c (fun x => k))
  (at level 61, c at next level, right associativity).

Fixpoint mapM {A B : Type} (f : A -> result B) (l : list A) : result (list B) :=
  match l with
  | [] => Ok []
  | a :: l' => b <- f a ;; bs <- mapM f l' ;; Ok (b :: bs)
  end.

(** ** The NumPy operations the scripts use *)

Module Np.

(** One-dimensional and two-dimensional float arrays; a two-dimensional array
    is the list of its rows. *)
Definition array := list R.
Definition array2 := list array.

(** [shape2 a r c]: [a] is an [r] by [c] array. *)
Definition shape2 (a : array2) (r c : nat) : Prop :=
  length a = r /\ Forall (fun row => length row = c) a.

(** [a[i][j]] read as a number, for statements about entries. *)
Definition entry (a : array2) (i j : nat) : R := nth j (nth i a []) 0.

(** [a / b] on floats. *)
Definition fdiv (a b : R) : result R :=
  if Req_dec_T b 0 then Err NonFinite else Ok (a / b).

(** [a[i]]. *)
Definition getitem {A : Type} (a : list A) (i : nat) : result A :=
  match nth_error a i with
  | Some v => Ok v
  | None => Err IndexError
  end.

(** [a[-1]]. *)
Definition getlast {A : Type} (a : list A) : result A :=
  getitem a (length a - 1).

(** [s / a] and [a / s] with a scalar [s], element by element. *)
Definition sdiv (s : R) (a : array) : result array :=
  mapM (fun v => fdiv s v) a.

Definition divs (a : array) (s : R) : result array :=
  mapM (fun v => fdiv v s) a.

(** [a - b] on arrays of one length. *)
Fixpoint vsub (a b : array) : result array :=
  match a, b with
  | [], [] => Ok []
  | u :: a', v :: b' => r <- vsub a' b' ;; Ok ((u - v) :: r)
  | _, _ => Err ValueError
  end.

(** [np.vstack(rows)]: the rows must have one length. *)
Definition same_length (rows : array2) : bool :=
  match rows with
  | [] => true
  | r :: rs => forallb (fun r' => Nat.eqb (length r') (length r)) rs
  end.

Definition vstack (rows : array2) : result array2 :=
  match rows with
  | [] => Err ValueError
  | _ => if same_length rows then Ok rows else Err ValueError
  end.

(** [np.zeros((r, c))]. *)
Definition zeros (r c : nat) : array2 := repeat (repeat 0 c) r.

(** [a[i] = v] (also written [a[i, :] = v]) with an array [v]: the row is
    overwritten; [v] must have the row's length. *)
Fixpoint set_row (a : array2) (i : nat) (v : array) : result array2 :=
  match a, i with
  | [], _ => Err IndexError
  | row :: rest, O =>
      if Nat.eqb (length v) (length row) then Ok (v :: rest) else Err ValueError
  | row :: rest, S i' => rest' <- set_row rest i' v ;; Ok (row :: rest')
  end.

(** [a[i] = s] with a scalar [s]: the scalar is broadcast over the row. *)
Fixpoint fill_row (a : array2) (i : nat) (s : R) : result array2 :=
  match a, i with
  | [], _ => Err IndexError
  | row :: rest, O => Ok (repeat s (length row) :: rest)
  | row :: rest, S i' => rest' <- fill_row rest i' s ;; Ok (row :: rest')
  end.

(** [a[:, j]]. *)
Definition column (a : array2) (j : nat) : result array :=
  mapM (fun row => getitem row j) a.

(** [np.linspace(start, stop, num)]: [num] evenly spaced samples, the last
    one set to [stop]. *)
Definition linspace (start stop : R) (num : nat) : array :=
  match num with
  | O => []
  | S O => [start]
  | S (S k) =>
      let step := (stop - start) / INR (S k) in
      map (fun i => INR i * step + start) (seq 0 (S k)) ++ [stop]
  end.

(** [np.diff(x)]. *)
Definition diff (x : array) : array :=
  map (fun i => nth (S i) x 0 - nth i x 0) (seq 0 (length x - 1)).

(** [(d == d[0]).all()]. *)
Definition all_equal_first (d : array) : bool :=
  forallb (fun v => if Req_dec_T v (nth 0 d 0) then true else false) d.

(** [np.gradient(f, x)] with the default [edge_order=1]: one-sided
    differences at the two ends, second-order central differences inside.
    When all spacings are equal NumPy reduces to the scalar-spacing formulas;
    otherwise it weights the three neighbours by the two adjacent
    spacings.  The checks come in NumPy's order: the coordinate array must
    have the length of [f] (ValueError); the spacings [np.diff(x)] are then
    compared with their first entry [diffx[0]], which raises IndexError when
    there is no spacing at all, that is below two points; the size of [f] is
    checked only after that. *)
Definition gradient_at (f diffx : array) (uniform : bool) (n i : nat) : result R :=
  let dx0 := nth 0 diffx 0 in
  if Nat.eqb i 0 then
    fdiv (nth 1 f 0 - nth 0 f 0) dx0
  else if Nat.eqb i (n - 1) then
    fdiv (nth (n - 1) f 0 - nth (n - 2) f 0)
         (if uniform then dx0 else nth (n - 2) diffx 0)
  else if uniform then
    fdiv (nth (i + 1) f 0 - nth (i - 1) f 0) (2 * dx0)
  else
    let dx1 := nth (i - 1) diffx 0 in
    let dx2 := nth i diffx 0 in
    a <- fdiv (- dx2) (dx1 * (dx1 + dx2)) ;;
    b <- fdiv (dx2 - dx1) (dx1 * dx2) ;;
    c <- fdiv dx1 (dx2 * (dx1 + dx2)) ;;
    Ok (a * nth (i - 1) f 0 + b * nth i f 0 + c * nth (i + 1) f 0).

Definition gradient (f x : array) : result array :=
  let n := length f in
  if negb (Nat.eqb (length x) n) then Err ValueError
  else
    let diffx := diff x in
    _ <- getitem diffx 0 ;;
    let uniform := all_equal_first diffx in
    if Nat.ltb n 2 then Err ValueError
    else mapM (gradient_at f diffx uniform n) (seq 0 n).

(** [np.log(v)]. *)
Definition log (v : R) : result R :=
  if Rlt_dec 0 v then Ok (ln v) else Err NonFinite.

(** [b ** e] with a float exponent [e > 0]. *)
Definition power (b e : R) : result R :=
  if Rlt_dec 0 b then Ok (Rpower b e)
  else if Req_dec_T b 0 then Ok 0
  else Err NonFinite.

(** [np.e]. *)
Definition e : R := exp 1.

(** [np.abs(a)]. *)
Definition abs (a : array) : array := map Rabs a.

(** [np.clip(a, a_min, None)]: every entry below [a_min] is raised to it. *)
Definition clip_min (a : array) (a_min : R) : array :=
  map (fun v => if Rlt_dec v a_min then a_min else v) a.

(** [np.arange(start, stop, step)] on integers, [step > 0]: the values
    [start + i * step] below [stop]. *)
Definition arange (start stop step : nat) : list nat :=
  map (fun i => (start + i * step)%nat)
      (seq 0 ((stop - start + (step - 1)) / step)).

(** [np.logspace(start, stop, num)]: ten to the power of the samples of
    [linspace]. *)
Definition logspace (start stop : R) (num : nat) : array :=
  map (fun y => Rpower 10 y) (linspace start stop num).

End Np.

(** ** The SciPy interface the scripts use *)

Module Scipy.
Import Np.

(** The object [solve_bvp] returns.  [sol] is the interpolant (called on an
    array of abscissae, it gives one row per unknown), [status] is 0 when the
    solver converged and 1, 2 or 3 otherwise, [message] describes the
    termination. *)
Record BvpResult : Type := {
  sol : array -> array2;
  status : Z;
  message : String.string
}.

(** SciPy sets [success = (status == 0)]. *)
Definition success (r : BvpResult) : bool := Z.eqb (status r) 0.

(** [solve_bvp(fun, bc, x, y, tol, max_nodes)].  The collocation solver is a
    library routine; the scripts are embedded relative to it. *)
Definition solver : Type :=
  (array -> array2 -> result array2) ->
  (array -> array -> result array) ->
  array -> array2 -> R -> nat -> BvpResult.

(** The same call when the solver may fail: it returns a result record or
    raises. *)
Definition raising_solver : Type :=
  (array -> array2 -> result array2) ->
  (array -> array -> result array) ->
  array -> array2 -> R -> nat -> result BvpResult.

Definition default_tol : R := 1e-3.
Definition default_max_nodes : nat := 1000.

End Scipy.

(** ** Definitions the [solve_bvp] scripts share

    [George-Zhang-v1.1.py], [George-Zhang-v1.3.py], [George-Zhang-v2.0.py]
    and [adam-kicman-v2.py] define the same regularised right-hand side up to
    the value of the module-level constant [eps]; every [solve_bvp] script
    defines the same [bc]; the George-Zhang scripts and [adam-kicman-v1.py]
    build the same linear guess. *)

Module Bvp.
Import Np Scipy.

Section Regularised.
Variable eps : R.

(** [def ode_system(x, y)] with the regularised denominator. *)
Definition ode_system (x : array) (y : array2) : result array2 :=
  h <- getitem y 0 ;;
  let denom := map (fun hi => hi ^ 2 + hi + eps) h in
  d3h_dx3 <- sdiv (-0.01) denom ;;
  y1 <- getitem y 1 ;;
  y2 <- getitem y 2 ;;
  vstack [y1; y2; d3h_dx3].

End Regularised.

(** [def bc(ya, yb)]. *)
Definition bc (ya yb : array) : result array :=
  ya0 <- getitem ya 0 ;;
  ya1 <- getitem ya 1 ;;
  yb2 <- getitem yb 2 ;;
  Ok [ya0 - 0.0; ya1 - 1.0; yb2 - 0.0].

(** The linear guess: [y_init = np.zeros((3, x.size))], then
    [y_init[0] = x], [y_init[1] = 1.0], [y_init[2] = 0.0]. *)
Definition linear_y_init (x : array) : result array2 :=
  let y_init := zeros 3 (length x) in
  y_init <- set_row y_init 0 x ;;
  y_init <- fill_row y_init 1 1.0 ;;
  fill_row y_init 2 0.0.


(** The three rows the scripts read off the evaluated solution:
    [y_plot = sol.sol(x_plot)], then [y_plot[0]], [y_plot[1]], [y_plot[2]]. *)
Definition evaluate (s : BvpResult) (x_plot : array)
  : result (array * array * array) :=
  let y_plot := sol s x_plot in
  h <- getitem y_plot 0 ;;
  hp <- getitem y_plot 1 ;;
  hpp <- getitem y_plot 2 ;;
  Ok (h, hp, hpp).

End Bvp.

(** ** [George-Zhang-v1.1.py] *)

Module GeorgeZhang_v1_1.
Import Np Scipy.

Definition L : R := 50.0.
Definition eps : R := 1e-6.

Definition ode_system := Bvp.ode_system eps.
Definition bc := Bvp.bc.

Definition x_init : array := linspace 0.0 L 200.
Definition y_init : result array2 := Bvp.linear_y_init x_init.

Definition warning : String.string :=
  "WARNING: BVP solver did not converge. Message:"%string.

(** The script from the solve on: what it prints and what it hands to the
    plotting code.  An exception raised by the solver ends the script. *)
Definition main (solve_bvp : raising_solver)
  : list String.string * result (array * array * array) :=
  match y_init with
  | Err e => ([], Err e)
  | Ok y0 =>
      match solve_bvp ode_system bc x_init y0 default_tol default_max_nodes with
      | Err e => ([], Err e)
      | Ok sol =>
          let stdout :=
            if negb (Z.eqb (status sol) 0)
            then [warning; message sol]
            else [] in
          let x_plot := linspace 0.0 L 1000 in
          (stdout, Bvp.evaluate sol x_plot)
      end
  end.

End GeorgeZhang_v1_1.

(** ** [George-Zhang-v1.3.py] *)

Module GeorgeZhang_v1_3.
Import Np Scipy.

Definition L : R := 5000.0.
Definition eps : R := 1e-6.

Definition ode_system := Bvp.ode_system eps.
Definition bc := Bvp.bc.

Definition x_init : array := linspace 0 L 200.
Definition y_init : result array2 := Bvp.linear_y_init x_init.

Definition warning : String.string :=
  "WARNING: solve_bvp did not fully converge:"%string.

(** The script from the solve on: the warning, the three evaluations
    [sol.sol(x_plot)[0]], [[1]], [[2]], and the clipped magnitudes
    [np.clip(np.abs(h_p), 1e-20, None)] that go to the log-log plot. *)
Definition main (solve_bvp : solver)
  : list String.string * result (array * array * array * array * array) :=
  match y_init with
  | Err e => ([], Err e)
  | Ok y0 =>
      let sol := solve_bvp ode_system bc x_init y0 default_tol default_max_nodes in
      let stdout :=
        if negb (Z.eqb (status sol) 0)
        then [warning; message sol]
        else [] in
      let x_plot := linspace 0 L 1000 in
      (stdout,
       h <- getitem (Scipy.sol sol x_plot) 0 ;;
       h_p <- getitem (Scipy.sol sol x_plot) 1 ;;
       h_pp <- getitem (Scipy.sol sol x_plot) 2 ;;
       let h_p_safe := clip_min (abs h_p) 1e-20 in
       let h_pp_safe := clip_min (abs h_pp) 1e-20 in
       Ok (h, h_p, h_pp, h_p_safe, h_pp_safe))
  end.

End GeorgeZhang_v1_3.

(** ** [George-Zhang-v2.0.py] *)

Module GeorgeZhang_v2_0.
Import Np.

Definition L : R := 500.0.
Definition eps : R := 1e-6.

Definition ode_system := Bvp.ode_system eps.
Definition bc := Bvp.bc.

Definition x_init : array := linspace 0 L 200.
Definition y_init : result array2 := Bvp.linear_y_init x_init.

End GeorgeZhang_v2_0.

(** ** [adam-kicman-v1.py] *)

Module AdamKicman_v1.
Import Np.

(** [def ode_system(x, y)]: no regularisation in this script. *)
Definition ode_system (x : array) (y : array2) : result array2 :=
  h <- getitem y 0 ;;
  rhs <- sdiv (-0.01) (map (fun hi => hi ^ 2 + hi) h) ;;
  y1 <- getitem y 1 ;;
  y2 <- getitem y 2 ;;
  vstack [y1; y2; rhs].

Definition bc := Bvp.bc.

Definition x_max : R := 50.
Definition x : array := linspace 0 x_max 500.
Definition y_init : result array2 := Bvp.linear_y_init x.

End AdamKicman_v1.

(** ** [adam-kicman-v2.py] *)

Module AdamKicman_v2.
Import Np Scipy.

Definition eps : R := 1e-10.
Definition x_max : R := 20.
Definition N : nat := 4000.

Definition ode_system := Bvp.ode_system eps.
Definition bc := Bvp.bc.

(** [h_guess = x - (x/x_max)**3], as a function of the mesh and of the
    truncation length. *)
Definition h_guess (x_max : R) (x : array) : result array :=
  q <- divs x x_max ;;
  vsub x (map (fun t => t ^ 3) q).

(** The shape-aware guess: [y_init[0] = h_guess],
    [y_init[1] = np.gradient(h_guess, x)],
    [y_init[2] = np.gradient(y_init[1], x)]. *)
Definition shape_y_init (x_max : R) (x : array) : result array2 :=
  h_guess <- h_guess x_max x ;;
  let y_init := zeros 3 (length x) in
  y_init <- set_row y_init 0 h_guess ;;
  g <- gradient h_guess x ;;
  y_init <- set_row y_init 1 g ;;
  y_init1 <- getitem y_init 1 ;;
  g2 <- gradient y_init1 x ;;
  set_row y_init 2 g2.

Definition x : array := linspace 0 x_max N.
Definition y_init : result array2 := shape_y_init x_max x.

(** The mesh sizes of the stability loop, [np.arange(100, 10100+1000, 1000)],
    and the guess built for each of them. *)
Definition N_array : list nat := map (fun i => (100 + 1000 * i)%nat) (seq 0 11).

Definition y_init_for (n : nat) : result array2 :=
  shape_y_init x_max (linspace 0 x_max n).

Definition warning : String.string :=
  "
WARNING: BVP solver did not converge!
"%string.

(** The script from the first solve up to the evaluation of the solution.
    An exception raised by the solver ends the script. *)
Definition main (solve_bvp : raising_solver)
  : list String.string * result (array * array * array) :=
  match y_init with
  | Err e => ([], Err e)
  | Ok y0 =>
      match solve_bvp ode_system bc x y0 1e-4 (20 * 1000)%nat with
      | Err e => ([], Err e)
      | Ok sol =>
          let stdout :=
            if negb (success sol)
            then [warning]
            else [] in
          let x_plot := linspace 0 x_max 1000 in
          (stdout, Bvp.evaluate sol x_plot)
      end
  end.

End AdamKicman_v2.

(** ** [Vatsal_SolutionChatGPT.py] *)

Module Vatsal.
Import Np.

(** [def ode_system(x, y)] for [solve_ivp]: [y] is unpacked into three
    scalars and a list of three scalars is returned. *)
Definition ode_system (x : R) (y : array) : result array :=
  match y with
  | [h1; h2; h3] =>
      r <- fdiv 1 (h1 ^ 2 + h1) ;;
      let dh3dx := -0.01 * r in
      let dh1dx := h2 in
      let dh2dx := h3 in
      Ok [dh1dx; dh2dx; dh3dx]
  | _ => Err ValueError
  end.

Definition initial_conditions : array := [0; 1; 0].

End Vatsal.

(** ** [George-Zhang-v1.0.py] *)

Module GeorgeZhang_v1_0.
Import Np.

Definition ode_rhs (x h : R) : result R := fdiv (-0.01) (h ^ 2 + h).

Definition h_prime (h : R) : result R := fdiv (-0.01) (h ^ 2 + h).

Definition h_double_prime (h : R) : result R :=
  fdiv (-0.0001 * (2 * h + 1)) ((h ^ 2 + h) ^ 3).

End GeorgeZhang_v1_0.

(** ** [Cox-Voinov-largeX.py] *)

Module CoxVoinov.
Import Np.

Definition theta_cubed (x : R) : result R :=
  l <- log (e * x) ;;
  Ok (1 + 0.03 * l).

Definition theta (x : R) : result R :=
  t3 <- theta_cubed x ;;
  power t3 (1 / 3).

Definition dtheta_dx (x : R) : result R :=
  theta_val <- theta x ;;
  fdiv 0.01 (x * theta_val ^ 2).

(** The two plotting grids and the arrays evaluated on them; the functions
    are applied to an array element by element. *)
Definition x_linear : array := linspace 0.01 1000 2000.
Definition theta_cubed_linear : result array := mapM theta_cubed x_linear.
Definition dtheta_linear : result array := mapM dtheta_dx x_linear.

Definition x_log : array := logspace (-3) 5 2000.
Definition theta_cubed_log : result array := mapM theta_cubed x_log.
Definition dtheta_log : result array := mapM dtheta_dx x_log.

End CoxVoinov.

(** ** The collocation solver

    [scipy.integrate.solve_bvp] is called by the scripts and is not part of
    the repository.  The module below follows the description the
    specification gives of it; the numerical kernels (the piecewise
    polynomial fit, the Newton-type iteration and the truncation-error
    estimate) are parameters. *)

Module Collocation.
Import Np Scipy.

(** Modelled from the spec: the Solution record, the interpolated function
    x -> (h, h', h'') with the diagnostics converged, max_residual and
    node_count; [mesh] and [samples] are the nodes and node values the
    interpolant was fitted to. *)
Record Solution : Type := {
  interpolant : R -> R * R * R;
  mesh : array;
  samples : array2;
  converged : bool;
  max_residual : R;
  node_count : nat
}.

Fixpoint increasingb (x : array) : bool :=
  match x with
  | a :: (b :: _) as rest =>
      (if Rlt_dec a b then true else false) && increasingb rest
  | _ => true
  end.

Definition matching_shape (guess : array2) (n : nat) : bool :=
  Nat.eqb (length guess) 3 && forallb (fun row => Nat.eqb (length row) n) guess.

(** Modelled from the spec: the solver's input contract, a strictly
    increasing mesh of at least two points, a guess of matching shape, a
    positive tolerance and a node budget no smaller than the mesh. *)
Definition valid_configuration
  (x : array) (guess : array2) (tol : R) (max_nodes : nat) : bool :=
  increasingb x && Nat.leb 2 (length x) && matching_shape guess (length x)
  && (if Rlt_dec 0 tol then true else false)
  && Nat.leb (length x) max_nodes.

(** The interpolant evaluated on an array of abscissae: one row per
    unknown. *)
Definition sample (f : R -> R * R * R) (xs : array) : array2 :=
  [map (fun x => fst (fst (f x))) xs;
   map (fun x => snd (fst (f x))) xs;
   map (fun x => snd (f x)) xs].

(** Modelled from the spec: new mesh points are inserted where the estimate
    exceeds the tolerance, halving the flagged intervals; [flags] has one
    entry per subinterval. *)
Fixpoint halve (x : array) (flags : list bool) : array :=
  match x with
  | [] => []
  | a :: rest =>
      match rest, flags with
      | b :: _, flag :: flags' =>
          if flag then a :: (a + b) / 2 :: halve rest flags'
          else a :: halve rest flags'
      | _, _ => a :: rest
      end
  end.

Section Solver.

(** The numerical kernels: [fit x y] is the piecewise polynomial through the
    node values [y] on the mesh [x]; [newton f bc tol x y] runs the
    Newton-type iteration from [y] and returns its last iterate, with
    [false] when the iteration cap was reached; [estimate f x y i] is the
    local truncation-error estimate on the i-th subinterval. *)
Variable fit : array -> array2 -> R -> R * R * R.
Variable newton :
  (array -> array2 -> result array2) -> (array -> array -> result array) ->
  R -> array -> array2 -> array2 * bool.
Variable estimate :
  (array -> array2 -> result array2) -> array -> array2 -> nat -> R.

Variable f : array -> array2 -> result array2.
Variable bc : array -> array -> result array.

Definition estimates (x : array) (y : array2) : list R :=
  map (estimate f x y) (seq 0 (length x - 1)).

Definition exceeds (tol e : R) : bool := if Rlt_dec tol e then true else false.

(** Modelled from the spec: the refinement loop of the solver.  Each round
    runs the Newton-type iteration on the current mesh and evaluates the
    error estimate on every subinterval; the loop returns a converged
    solution when all estimates are within [tol], and the best available
    solution with [converged = false] when the iteration cap was reached or
    when refining would take the node count above [max_nodes]; otherwise it
    halves the flagged intervals and repeats.  [fuel] bounds the number of
    rounds. *)
Fixpoint refine (fuel : nat) (tol : R) (max_nodes : nat)
  (x : array) (y : array2) : result Solution :=
  match fuel with
  | O => Err OutOfFuel
  | S fuel' =>
      let (y', residual_ok) := newton f bc tol x y in
      let est := estimates x y' in
      let flags := map (exceeds tol) est in
      let solution c :=
        {| interpolant := fit x y';
           mesh := x;
           samples := y';
           converged := c;
           max_residual := fold_right Rmax 0 est;
           node_count := length x |} in
      if negb residual_ok then Ok (solution false)
      else if forallb negb flags then Ok (solution true)
      else
        let x' := halve x flags in
        if Nat.ltb max_nodes (length x') then Ok (solution false)
        else refine fuel' tol max_nodes x' (sample (fit x y') x')
  end.

(** Modelled from the spec: the solver entry point.  An invalid
    configuration fails before any solve attempt; a valid one is refined,
    with one round for every node the budget leaves room for. *)
Definition solve (x : array) (guess : array2) (tol : R) (max_nodes : nat)
  : result Solution :=
  if valid_configuration x guess tol max_nodes
  then refine (max_nodes - length x + 1) tol max_nodes x guess
  else Err ConfigurationError.

End Solver.

(** The solution as the scripts read it: [sol.sol], [sol.status],
    [sol.message]. *)
Definition as_bvp_result (s : Solution) : BvpResult :=
  {| sol := sample (interpolant s);
     status := if converged s then 0%Z else 1%Z;
     message := if converged s
                then "The algorithm converged to the desired accuracy."%string
                else "The maximum number of mesh nodes is exceeded."%string |}.

Definition solve_bvp
  (fit : array -> array2 -> R -> R * R * R)
  (newton : (array -> array2 -> result array2) ->
            (array -> array -> result array) ->
            R -> array -> array2 -> array2 * bool)
  (estimate : (array -> array2 -> result array2) ->
              array -> array2 -> nat -> R)
  : raising_solver :=
  fun f bc x y tol max_nodes =>
    s <- solve fit newton estimate f bc x y tol max_nodes ;;
    Ok (as_bvp_result s).

End Collocation.

(** ** Binary64 and rounded arithmetic

    The scripts compute in IEEE 754 binary64.  [Float64] evaluates the
    right-hand sides on machine floats, operation by operation as the
    scripts write them; a division by zero gives an infinity or a NaN there.
    [Rounded] evaluates them over the reals with every operation followed by
    a rounding [rnd], for statements that hold whatever the rounding is. *)

Module Float64.
Import Np.
Local Open Scope float_scope.

Definition farray := list float.
Definition farray2 := list farray.

(** [def ode_system(x, y)] of [George-Zhang-v1.1.py], [George-Zhang-v1.3.py]
    and [adam-kicman-v2.py].  NumPy computes [y[0]**2] as the product
    [y[0] * y[0]]; the rows of a two-dimensional array have one length, so
    [np.vstack] stacks them. *)
Definition ode_system (eps : float) (x : farray) (y : farray2)
  : result farray2 :=
  h <- getitem y 0 ;;
  let denom := map (fun hi => hi * hi + hi + eps) h in
  let d3h_dx3 := map (fun d => (-0.01) / d) denom in
  y1 <- getitem y 1 ;;
  y2 <- getitem y 2 ;;
  Ok [y1; y2; d3h_dx3].

(** [def ode_system(x, y)] of [adam-kicman-v1.py]. *)
Definition ode_system_unregularised (x : farray) (y : farray2)
  : result farray2 :=
  h <- getitem y 0 ;;
  let denom := map (fun hi => hi * hi + hi) h in
  let d3h_dx3 := map (fun d => (-0.01) / d) denom in
  y1 <- getitem y 1 ;;
  y2 <- getitem y 2 ;;
  Ok [y1; y2; d3h_dx3].

End Float64.

Module Rounded.
Import Np.

Section Rounding.
Variable rnd : R -> R.

Definition add (a b : R) : R := rnd (a + b).
Definition mul (a b : R) : R := rnd (a * b).
Definition div (a b : R) : result R :=
  if Req_dec_T b 0 then Err NonFinite else Ok (rnd (a / b)).

(** [def ode_system(x, y)] with the regularised denominator. *)
Definition ode_system (eps : R) (x : array) (y : array2) : result array2 :=
  h <- getitem y 0 ;;
  let denom := map (fun hi => add (add (mul hi hi) hi) eps) h in
  d3h_dx3 <- mapM (fun d => div (rnd (-0.01)) d) denom ;;
  y1 <- getitem y 1 ;;
  y2 <- getitem y 2 ;;
  vstack [y1; y2; d3h_dx3].

(** [def ode_system(x, y)] of [adam-kicman-v1.py]. *)
Definition ode_system_unregularised (x : array) (y : array2)
  : result array2 :=
  h <- getitem y 0 ;;
  let denom := map (fun hi => add (mul hi hi) hi) h in
  d3h_dx3 <- mapM (fun d => div (rnd (-0.01)) d) denom ;;
  y1 <- getitem y 1 ;;
  y2 <- getitem y 2 ;;
  vstack [y1; y2; d3h_dx3].

End Rounding.

(** A rounding is monotone; round-to-nearest is, and so are the directed
    roundings. *)
Definition monotone (rnd : R -> R) : Prop :=
  forall x y, x <= y -> rnd x <= rnd y.

(** Rounding down to an integer, a monotone rounding on a coarse grid. *)
Definition round_down (x : R) : R := IZR (Int_part x).

End Rounded.

(** The value carried by a result, for statements about a function as a
    real function. *)
Definition value (c : result R) : R :=
  match c with
  | Ok v => v
  | Err _ => 0
  end.

(** ** Notions used in the statements *)

(** A mesh: strictly increasing abscissae. *)
Definition strictly_increasing (x : Np.array) : Prop :=
  forall i, (S i < length x)%nat -> nth i x 0 < nth (S i) x 0.

(** The finite-difference derivative of the samples [f] on the mesh [x] at
    index [i]: the forward quotient at the first point, the backward quotient
    at the last, and inside the second-order quotient
    (hs^2 f(x+hd) + (hd^2 - hs^2) f(x) - hd^2 f(x-hs)) / (hs hd (hd + hs))
    with hs and hd the spacings to the left and to the right. *)
Definition finite_difference (f x : Np.array) (i : nat) : R :=
  let n := length f in
  if Nat.eqb i 0 then
    (nth 1 f 0 - nth 0 f 0) / (nth 1 x 0 - nth 0 x 0)
  else if Nat.eqb i (n - 1) then
    (nth (n - 1) f 0 - nth (n - 2) f 0) / (nth (n - 1) x 0 - nth (n - 2) x 0)
  else
    let hs := nth i x 0 - nth (i - 1) x 0 in
    let hd := nth (i + 1) x 0 - nth i x 0 in
    (hs ^ 2 * nth (i + 1) f 0 + (hd ^ 2 - hs ^ 2) * nth i f 0
     - hd ^ 2 * nth (i - 1) f 0) / (hs * hd * (hd + hs)).

(** The abscissa at which [theta_cubed] of the Cox-Voinov script changes
    sign: 1 + 0.03 ln(e x) = 0 at x = exp(-1/0.03 - 1). *)
Definition x_star : R := exp (- (1 / 0.03) - 1).

(** A solver result whose interpolant returns one row per unknown, each as
    long as the abscissae it is called on. *)
Definition well_shaped (s : Scipy.BvpResult) : Prop :=
  forall xs, Np.shape2 (Scipy.sol s xs) 3 (length xs).

(** * Properties *)

(** ** The error monad and the array primitives *)

Section Primitives.
Import Np.

Lemma fdiv_ok (a b : R) : b <> 0 -> fdiv a b = Ok (a / b).
Proof.
  intros Hb. unfold fdiv. destruct (Req_dec_T b 0) as [E | _]; [contradiction | reflexivity].
Qed.

Lemma fdiv_zero (a : R) : fdiv a 0 = Err NonFinite.
Proof.
  unfold fdiv. destruct (Req_dec_T 0 0) as [_ | N]; [reflexivity | now elim N].
Qed.

Lemma fdiv_inv (a b v : R) : fdiv a b = Ok v -> b <> 0 /\ v = a / b.
Proof.
  unfold fdiv. destruct (Req_dec_T b 0); [discriminate | intros [= <-]; auto].
Qed.

Lemma mapM_ok {A B : Type} (f : A -> result B) (g : A -> B) (l : list A) :
  (forall a, In a l -> f a = Ok (g a)) -> mapM f l = Ok (map g l).
Proof.
  induction l as [| a l IH]; intros H; simpl.
  - reflexivity.
  - rewrite (H a (or_introl eq_refl)). simpl.
    rewrite IH by (intros b Hb; apply H; now right). reflexivity.
Qed.

Lemma mapM_err {A B : Type} (f : A -> result B) (l : list A) (a : A) (e : error) :
  In a l -> (forall b, In b l -> f b = Err e \/ exists v, f b = Ok v) ->
  f a = Err e -> mapM f l = Err e.
Proof.
  induction l as [| b l IH]; intros Hin Hall Ha; simpl.
  - contradiction.
  - destruct (Hall b (or_introl eq_refl)) as [Eb | [v Eb]]; rewrite Eb; simpl.
    + reflexivity.
    + destruct Hin as [-> | Hin]; [congruence |].
      rewrite IH; auto. intros c Hc. apply Hall. now right.
Qed.

Lemma sdiv_ok (s : R) (a : array) :
  Forall (fun v => v <> 0) a -> sdiv s a = Ok (map (fun v => s / v) a).
Proof.
  intros H. unfold sdiv. apply mapM_ok. intros v Hv.
  apply fdiv_ok. rewrite Forall_forall in H. now apply H.
Qed.

Lemma sdiv_err (s : R) (a : array) : In 0 a -> sdiv s a = Err NonFinite.
Proof.
  intros H. unfold sdiv. apply (mapM_err _ a 0); auto using fdiv_zero.
  intros b _. unfold fdiv. destruct (Req_dec_T b 0); eauto.
Qed.

Lemma divs_ok (a : array) (s : R) :
  s <> 0 -> divs a s = Ok (map (fun v => v / s) a).
Proof.
  intros H. unfold divs. apply mapM_ok. intros v _. now apply fdiv_ok.
Qed.

Lemma vsub_map {A : Type} (f g : A -> R) (l : list A) :
  vsub (map f l) (map g l) = Ok (map (fun a => f a - g a) l).
Proof.
  induction l as [| a l IH]; simpl; [reflexivity |]. now rewrite IH.
Qed.

Lemma shape2_rows (y : array2) (m : nat) :
  shape2 y 3 m ->
  exists y0 y1 y2, y = [y0; y1; y2] /\ length y0 = m /\ length y1 = m /\ length y2 = m.
Proof.
  intros [Hlen Hall].
  destruct y as [| y0 [| y1 [| y2 [| ? ?]]]]; try discriminate.
  exists y0, y1, y2. inversion Hall as [| ? ? H0 Hall1]; subst.
  inversion Hall1 as [| ? ? H1 Hall2]; subst.
  inversion Hall2 as [| ? ? H2 _]; subst. auto.
Qed.

Lemma shape2_of_rows (y0 y1 y2 : array) (m : nat) :
  length y0 = m -> length y1 = m -> length y2 = m -> shape2 [y0; y1; y2] 3 m.
Proof.
  intros H0 H1 H2. split; [reflexivity |]. repeat constructor; assumption.
Qed.

Lemma vstack3_ok (r0 r1 r2 : array) :
  length r1 = length r0 -> length r2 = length r0 ->
  vstack [r0; r1; r2] = Ok [r0; r1; r2].
Proof.
  intros H1 H2. unfold vstack, same_length. simpl.
  rewrite H1, H2, Nat.eqb_refl. reflexivity.
Qed.

End Primitives.

(** ** The right-hand side *)

Section RightHandSide.
Import Np.
Variable eps : R.

(** On a 3-by-m state whose denominators are all nonzero the regularised
    right-hand side is the stacked array of the shifted rows and of the
    quotient row. *)
Lemma ode_system_rows (x y0 y1 y2 : array) :
  length y1 = length y0 -> length y2 = length y0 ->
  Forall (fun h => h ^ 2 + h + eps <> 0) y0 ->
  Bvp.ode_system eps x [y0; y1; y2]
  = Ok [y1; y2; map (fun h => -0.01 / (h ^ 2 + h + eps)) y0].
Proof.
  intros H1 H2 Hd. unfold Bvp.ode_system. simpl.
  rewrite sdiv_ok.
  - simpl. rewrite map_map. apply vstack3_ok.
    + congruence.
    + rewrite length_map. congruence.
  - rewrite Forall_map. exact Hd.
Qed.

(** A vanishing denominator anywhere on the mesh ends the evaluation. *)
Lemma ode_system_singular (x y0 y1 y2 : array) :
  Exists (fun h => h ^ 2 + h + eps = 0) y0 ->
  Bvp.ode_system eps x [y0; y1; y2] = Err NonFinite.
Proof.
  intros Hd. unfold Bvp.ode_system. simpl.
  rewrite sdiv_err; [reflexivity |].
  rewrite Exists_exists in Hd. destruct Hd as [h [Hin Hz]].
  rewrite <- Hz. apply (in_map (fun hi => hi ^ 2 + hi + eps)). exact Hin.
Qed.

End RightHandSide.

(** The scripts' right-hand sides as instances of the shared one. *)
Lemma scripts_share_ode_system :
  GeorgeZhang_v1_1.ode_system = Bvp.ode_system 1e-6 /\
  GeorgeZhang_v1_3.ode_system = Bvp.ode_system 1e-6 /\
  GeorgeZhang_v2_0.ode_system = Bvp.ode_system 1e-6 /\
  AdamKicman_v2.ode_system = Bvp.ode_system 1e-10.
Proof. repeat split. Qed.

Section RightHandSideEntries.
Import Np.

Lemma entry_row0 (y0 y1 y2 : array) (j : nat) : entry [y0; y1; y2] 0 j = nth j y0 0.
Proof. reflexivity. Qed.

Lemma entry_row1 (y0 y1 y2 : array) (j : nat) : entry [y0; y1; y2] 1 j = nth j y1 0.
Proof. reflexivity. Qed.

Lemma entry_row2 (y0 y1 y2 : array) (j : nat) : entry [y0; y1; y2] 2 j = nth j y2 0.
Proof. reflexivity. Qed.

Lemma nth_map_in {A : Type} (f : A -> R) (l : list A) (d : A) (j : nat) :
  (j < length l)%nat -> nth j (map f l) 0 = f (nth j l d).
Proof.
  intros Hj. rewrite (nth_indep _ 0 (f d)) by (now rewrite length_map).
  apply map_nth.
Qed.

Lemma Forall_nth_lt (P : R -> Prop) (l : array) :
  (forall j, (j < length l)%nat -> P (nth j l 0)) -> Forall P l.
Proof.
  intros H. apply Forall_forall. intros v Hv.
  destruct (In_nth l v 0 Hv) as [j [Hj <-]]. now apply H.
Qed.

(** The entries of the regularised right-hand side, column by column. *)
Lemma ode_system_entries (eps : R) (x : array) (y : array2) (m : nat) :
  shape2 y 3 m ->
  (forall j, (j < m)%nat -> entry y 0 j ^ 2 + entry y 0 j + eps <> 0) ->
  exists out,
    Bvp.ode_system eps x y = Ok out /\
    shape2 out 3 m /\
    forall j, (j < m)%nat ->
      entry out 0 j = entry y 1 j /\
      entry out 1 j = entry y 2 j /\
      entry out 2 j = - (0.01 / (entry y 0 j ^ 2 + entry y 0 j + eps)).
Proof.
  intros Hs Hd.
  destruct (shape2_rows y m Hs) as (y0 & y1 & y2 & -> & L0 & L1 & L2).
  exists [y1; y2; map (fun h => -0.01 / (h ^ 2 + h + eps)) y0].
  split; [| split].
  - apply ode_system_rows; try congruence.
    apply Forall_nth_lt. intros j Hj. apply (Hd j). congruence.
  - apply shape2_of_rows; auto. now rewrite length_map.
  - intros j Hj. rewrite !entry_row0, entry_row1, !entry_row2.
    repeat split.
    rewrite (nth_map_in _ y0 0 j) by congruence. lra.
Qed.

End RightHandSideEntries.

(** ** Claims about the right-hand side and the boundary residuals *)

Section ProblemModel.
Import Np.

(** C1.  For every regularisation [eps], every mesh [x] and every 3-by-m
    state [y] = (h, h', h'') the right-hand side returns a 3-by-m array whose
    column at each mesh point is (h', h'', -k / (h^2 + h + eps)) with
    k = 0.01, wherever that quotient is a number.  The mesh argument is not
    used and nothing but the returned array is produced.  The scripts
    [George-Zhang-v1.1.py], [George-Zhang-v1.3.py] and [adam-kicman-v2.py]
    instantiate [eps] with 1e-6, 1e-6 and 1e-10. *)
Theorem ode_system_returns_derivative_triple :
  forall (eps : R) (x : array) (y : array2) (m : nat),
    shape2 y 3 m ->
    (forall j, (j < m)%nat -> entry y 0 j ^ 2 + entry y 0 j + eps <> 0) ->
    let k := 0.01 in
    exists out,
      Bvp.ode_system eps x y = Ok out /\
      shape2 out 3 m /\
      forall j, (j < m)%nat ->
        entry out 0 j = entry y 1 j /\
        entry out 1 j = entry y 2 j /\
        entry out 2 j = - (k / (entry y 0 j ^ 2 + entry y 0 j + eps)).
Proof.
  intros eps x y m Hs Hd k. exact (ode_system_entries eps x y m Hs Hd).
Qed.

Lemma ode_system_returns_derivative_triple_witness :
  let y := [[0; 1]; [1; 1]; [0; 0]] in
  shape2 y 3 2 /\
  (forall j, (j < 2)%nat ->
     entry y 0 j ^ 2 + entry y 0 j + GeorgeZhang_v1_1.eps <> 0) /\
  exists out,
    GeorgeZhang_v1_1.ode_system [0; 1] y = Ok out /\
    shape2 out 3 2 /\
    forall j, (j < 2)%nat ->
      entry out 0 j = entry y 1 j /\
      entry out 1 j = entry y 2 j /\
      entry out 2 j
      = - (0.01 / (entry y 0 j ^ 2 + entry y 0 j + GeorgeZhang_v1_1.eps)).
Proof.
  assert (Hs : shape2 [[0; 1]; [1; 1]; [0; 0]] 3 2)
    by (apply shape2_of_rows; reflexivity).
  assert (Hd : forall j, (j < 2)%nat ->
            entry [[0; 1]; [1; 1]; [0; 0]] 0 j ^ 2
            + entry [[0; 1]; [1; 1]; [0; 0]] 0 j + GeorgeZhang_v1_1.eps <> 0).
  { intros j Hj. unfold GeorgeZhang_v1_1.eps.
    destruct j as [| [| j]]; [unfold entry; simpl; lra .. | lia]. }
  split; [exact Hs | split; [exact Hd |]].
  exact (ode_system_returns_derivative_triple
           GeorgeZhang_v1_1.eps [0; 1] _ 2%nat Hs Hd).
Defined.

(** C2.  On the states [ya] at the first and [yb] at the last mesh point the
    boundary function returns exactly the three residuals
    (ya.h - 0, ya.h' - 1, yb.h'' - 0); they vanish together exactly when
    h(0) = 0, h'(0) = 1 and h''(L) = 0.  [bc] is the same function in
    [George-Zhang-v1.1.py], [adam-kicman-v2.py] and [adam-kicman-v1.py]. *)
Theorem bc_returns_residuals :
  forall ha hpa hppa hb hpb hppb : R,
    let ya := [ha; hpa; hppa] in
    let yb := [hb; hpb; hppb] in
    GeorgeZhang_v1_1.bc ya yb = Ok [ha - 0; hpa - 1; hppb - 0] /\
    AdamKicman_v2.bc ya yb = Ok [ha - 0; hpa - 1; hppb - 0] /\
    AdamKicman_v1.bc ya yb = Ok [ha - 0; hpa - 1; hppb - 0] /\
    (Bvp.bc ya yb = Ok [0; 0; 0] <-> ha = 0 /\ hpa = 1 /\ hppb = 0).
Proof.
  intros ha hpa hppa hb hpb hppb ya yb.
  assert (E : Bvp.bc ya yb = Ok [ha - 0; hpa - 1; hppb - 0]).
  { unfold Bvp.bc, ya, yb. simpl.
    do 2 f_equal; [lra | f_equal; [lra | f_equal; lra]]. }
  repeat split; try exact E.
  - rewrite E in H. injection H as H0 H1 H2. lra.
  - rewrite E in H. injection H as H0 H1 H2. lra.
  - rewrite E in H. injection H as H0 H1 H2. lra.
  - intros (-> & -> & ->). rewrite E. do 2 f_equal; [lra | f_equal; [lra | f_equal; lra]].
Qed.

End ProblemModel.

(** ** Meshes and the linear guess *)

Section Meshes.
Import Np.

Lemma linspace_length (a b : R) (n : nat) : length (linspace a b n) = n.
Proof.
  destruct n as [| [| k]]; simpl; try reflexivity.
  rewrite length_app, length_map, length_seq. simpl. lia.
Qed.

Lemma nth_map_seq (f : nat -> R) (n j : nat) :
  (j < n)%nat -> nth j (map f (seq 0 n)) 0 = f j.
Proof.
  intros Hj. rewrite (nth_map_in f (seq 0 n) O j) by (now rewrite length_seq).
  now rewrite seq_nth.
Qed.

(** The points of [linspace] are evenly spaced. *)
Lemma linspace_nth (a b : R) (n j : nat) :
  (2 <= n)%nat -> (j < n)%nat ->
  nth j (linspace a b n) 0 = a + INR j * ((b - a) / INR (n - 1)).
Proof.
  intros Hn Hj. destruct n as [| [| k]]; try lia.
  replace (S (S k) - 1)%nat with (S k) by lia.
  unfold linspace.
  assert (Hk : INR (S k) <> 0) by (apply not_0_INR; lia).
  destruct (Nat.eq_dec j (S k)) as [-> | Hne].
  - rewrite app_nth2; rewrite length_map, length_seq; [| lia].
    rewrite Nat.sub_diag. simpl nth. field. exact Hk.
  - rewrite app_nth1 by (rewrite length_map, length_seq; lia).
    rewrite nth_map_seq by lia. lra.
Qed.

Lemma repeat_nth (v : R) (n j : nat) : (j < n)%nat -> nth j (repeat v n) 0 = v.
Proof.
  revert j. induction n as [| n IH]; intros j Hj; [lia |].
  destruct j as [| j]; simpl; [reflexivity | apply IH; lia].
Qed.

(** The linear guess on a mesh [x] is the array of rows [x], ones, zeros. *)
Lemma linear_y_init_rows (x : array) :
  Bvp.linear_y_init x
  = Ok [x; repeat 1.0 (length x); repeat 0.0 (length x)].
Proof.
  unfold Bvp.linear_y_init, zeros. simpl.
  rewrite repeat_length, Nat.eqb_refl. simpl.
  rewrite repeat_length. reflexivity.
Qed.

End Meshes.

(** ** Regularisation *)

Section Regularisation.
Import Np.

(** With a positive regularisation and a nonnegative film thickness on the
    whole mesh, every denominator is positive and the right-hand side is
    evaluated without leaving the real numbers. *)
Lemma regularised_rhs_defined (eps : R) (x : array) (y : array2) (m : nat) :
  0 < eps -> shape2 y 3 m ->
  (forall j, (j < m)%nat -> 0 <= entry y 0 j) ->
  (forall j, (j < m)%nat -> 0 < entry y 0 j ^ 2 + entry y 0 j + eps) /\
  exists out, Bvp.ode_system eps x y = Ok out.
Proof.
  intros He Hs Hh.
  assert (Hpos : forall j, (j < m)%nat -> 0 < entry y 0 j ^ 2 + entry y 0 j + eps).
  { intros j Hj. specialize (Hh j Hj). nra. }
  split; [exact Hpos |].
  destruct (ode_system_entries eps x y m Hs) as (out & E & _).
  - intros j Hj. specialize (Hpos j Hj). lra.
  - now exists out.
Qed.

(** The unregularised right-hand side on a linear guess whose mesh starts
    at zero. *)
Lemma unregularised_rhs_on_linear_guess (x : array) :
  (0 < length x)%nat -> nth 0 x 0 = 0 ->
  let y0 := [x; repeat 1.0 (length x); repeat 0.0 (length x)] in
  column y0 0 = Ok [0; 1.0; 0.0] /\
  AdamKicman_v1.ode_system x y0 = Err NonFinite.
Proof.
  intros Hlen Hx0. split.
  - destruct x as [| x0 xs]; [simpl in Hlen; lia |].
    simpl in Hx0. subst x0. reflexivity.
  - assert (Hin : In 0 (map (fun hi => hi ^ 2 + hi) x)).
    { apply in_map_iff. exists (nth 0 x 0).
      split; [rewrite Hx0; lra | apply nth_In; exact Hlen]. }
    unfold AdamKicman_v1.ode_system. simpl.
    rewrite sdiv_err by exact Hin. reflexivity.
Qed.

(** C3 (the scripts without regularisation).  [adam-kicman-v1.py] and
    [Vatsal_SolutionChatGPT.py] evaluate the right-hand side with no
    regularisation.  At the state the scripts themselves start from, h = 0 at
    x = 0, the denominator h^2 + h is zero: the first script divides by zero
    on its own initial guess, whose first column is (0, 1, 0), and the second
    on its own initial conditions. *)
Theorem unregularised_rhs_divides_by_zero :
  (exists y0,
     AdamKicman_v1.y_init = Ok y0 /\
     column y0 0 = Ok [0; 1.0; 0.0] /\
     AdamKicman_v1.ode_system AdamKicman_v1.x y0 = Err NonFinite) /\
  Vatsal.ode_system 0 Vatsal.initial_conditions = Err NonFinite.
Proof.
  split.
  - unfold AdamKicman_v1.y_init. rewrite linear_y_init_rows.
    eexists. split; [reflexivity |].
    apply unregularised_rhs_on_linear_guess.
    + unfold AdamKicman_v1.x. rewrite linspace_length. lia.
    + unfold AdamKicman_v1.x. rewrite linspace_nth by lia. simpl INR. lra.
  - unfold Vatsal.ode_system, Vatsal.initial_conditions.
    replace (0 ^ 2 + 0) with 0 by lra. rewrite fdiv_zero. reflexivity.
Qed.

Lemma Int_part_le (x y : R) : x <= y -> (Int_part x <= Int_part y)%Z.
Proof.
  intros Hxy.
  destruct (base_Int_part x) as [Hx1 Hx2].
  destruct (base_Int_part y) as [Hy1 Hy2].
  apply Z.lt_succ_r. apply lt_IZR. rewrite succ_IZR. lra.
Qed.

Lemma round_down_monotone : Rounded.monotone Rounded.round_down.
Proof.
  intros x y Hxy. unfold Rounded.round_down. apply IZR_le.
  now apply Int_part_le.
Qed.

Lemma round_down_IZR (z : Z) : Rounded.round_down (IZR z) = IZR z.
Proof.
  unfold Rounded.round_down. f_equal.
  destruct (base_Int_part (IZR z)) as [H1 H2].
  apply Z.le_antisymm.
  - apply le_IZR. exact H1.
  - apply Z.lt_succ_r. apply lt_IZR. rewrite succ_IZR. lra.
Qed.

Lemma round_down_idempotent (v : R) :
  Rounded.round_down (Rounded.round_down v) = Rounded.round_down v.
Proof. unfold Rounded.round_down at 2 3. apply round_down_IZR. Qed.

Lemma rounded_div_ok (rnd : R -> R) (a b : R) :
  b <> 0 -> Rounded.div rnd a b = Ok (rnd (a / b)).
Proof.
  intros Hb. unfold Rounded.div.
  destruct (Req_dec_T b 0); [contradiction | reflexivity].
Qed.

(** With the identity as rounding, the rounded right-hand side is the one
    over the reals. *)
Lemma rounded_identity_is_exact (eps : R) (x : array) (y : array2) :
  Rounded.ode_system (fun v => v) eps x y = Bvp.ode_system eps x y.
Proof.
  unfold Rounded.ode_system, Bvp.ode_system, sdiv.
  destruct (getitem y 0) as [h | e]; [| reflexivity]. cbn [bind].
  replace (map (fun hi =>
                  Rounded.add (fun v => v)
                    (Rounded.add (fun v => v) (Rounded.mul (fun v => v) hi hi)
                       hi) eps) h)
    with (map (fun hi => hi ^ 2 + hi + eps) h).
  - reflexivity.
  - apply map_ext. intros hi. unfold Rounded.add, Rounded.mul. ring.
Qed.

(** The rounded right-hand sides on a one-column state. *)
Lemma rounded_ode_system_column (rnd : R -> R) (eps : R) (xs : array)
  (h hp hpp : R) :
  let d := Rounded.add rnd (Rounded.add rnd (Rounded.mul rnd h h) h) eps in
  d <> 0 ->
  Rounded.ode_system rnd eps xs [[h]; [hp]; [hpp]]
  = Ok [[hp]; [hpp]; [rnd (rnd (-0.01) / d)]].
Proof.
  intros d Hd. unfold Rounded.ode_system, getitem.
  cbn [nth_error bind map mapM]. fold d.
  rewrite rounded_div_ok by exact Hd. reflexivity.
Qed.

Lemma rounded_unregularised_column (rnd : R -> R) (xs : array)
  (h hp hpp : R) :
  let d := Rounded.add rnd (Rounded.mul rnd h h) h in
  d <> 0 ->
  Rounded.ode_system_unregularised rnd xs [[h]; [hp]; [hpp]]
  = Ok [[hp]; [hpp]; [rnd (rnd (-0.01) / d)]].
Proof.
  intros d Hd. unfold Rounded.ode_system_unregularised, getitem.
  cbn [nth_error bind map mapM]. fold d.
  rewrite rounded_div_ok by exact Hd. reflexivity.
Qed.

(** Dividing a nonpositive constant by a larger positive denominator, then
    rounding monotonically, cannot increase the magnitude. *)
Lemma rounded_quotient_damped (rnd : R -> R) (k d1 d2 : R) :
  Rounded.monotone rnd -> rnd 0 = 0 -> k <= 0 -> 0 < d1 -> d1 <= d2 ->
  rnd (k / d1) <= rnd (k / d2) <= 0 /\
  Rabs (rnd (k / d2)) <= Rabs (rnd (k / d1)).
Proof.
  intros Hm H0 Hk Hd1 Hd12.
  assert (I12 : / d2 <= / d1) by (apply Rinv_le_contravar; lra).
  assert (I2 : 0 < / d2) by (apply Rinv_0_lt_compat; lra).
  assert (Q1 : k / d1 <= k / d2) by (unfold Rdiv; nra).
  assert (Q2 : k / d2 <= 0) by (unfold Rdiv; nra).
  pose proof (Hm _ _ Q1) as M1. pose proof (Hm _ _ Q2) as M2.
  rewrite H0 in M2.
  split; [lra |]. rewrite !Rabs_left1 by lra. lra.
Qed.

Lemma rounded_constant_nonpositive (rnd : R -> R) :
  Rounded.monotone rnd -> rnd 0 = 0 -> rnd (-0.01) <= 0.
Proof.
  intros Hm H0. apply Rle_trans with (rnd 0); [apply Hm; lra | lra].
Qed.

(** C4.  For two positive regularisations [eps1 < eps2] and a state whose
    h^2 + h is nonnegative, both right-hand sides are evaluated.  In exact
    arithmetic the third derivative under [eps2] is strictly smaller in
    magnitude than under [eps1] at every mesh point.  In rounded arithmetic,
    whatever the monotone rounding that leaves 0, [eps1] and -h unchanged
    (they are machine numbers), the third derivative under [eps2] lies
    between the one under [eps1] and 0: its magnitude is never larger, and
    it need not be smaller. *)
Theorem larger_regularisation_damps_rhs :
  (forall (eps1 eps2 : R) (x : array) (y : array2) (m : nat),
     0 < eps1 -> eps1 < eps2 ->
     shape2 y 3 m ->
     (forall j, (j < m)%nat -> 0 <= entry y 0 j ^ 2 + entry y 0 j) ->
     exists out1 out2,
       Bvp.ode_system eps1 x y = Ok out1 /\
       Bvp.ode_system eps2 x y = Ok out2 /\
       forall j, (j < m)%nat ->
         entry out1 2 j = - (0.01 / (entry y 0 j ^ 2 + entry y 0 j + eps1)) /\
         entry out2 2 j = - (0.01 / (entry y 0 j ^ 2 + entry y 0 j + eps2)) /\
         Rabs (entry out2 2 j) < Rabs (entry out1 2 j)) /\
  (forall (rnd : R -> R) (eps1 eps2 : R) (xs : array) (h hp hpp : R),
     Rounded.monotone rnd -> rnd 0 = 0 ->
     0 < eps1 -> rnd eps1 = eps1 -> eps1 < eps2 ->
     rnd (- h) = - h -> 0 <= h ^ 2 + h ->
     exists v1 v2,
       Rounded.ode_system rnd eps1 xs [[h]; [hp]; [hpp]]
       = Ok [[hp]; [hpp]; [v1]] /\
       Rounded.ode_system rnd eps2 xs [[h]; [hp]; [hpp]]
       = Ok [[hp]; [hpp]; [v2]] /\
       v1 <= v2 <= 0 /\
       Rabs v2 <= Rabs v1).
Proof.
  split.
  - intros eps1 eps2 x y m H1 H12 Hs Hh.
    destruct (ode_system_entries eps1 x y m Hs) as (out1 & E1 & _ & V1).
    { intros j Hj. specialize (Hh j Hj). lra. }
    destruct (ode_system_entries eps2 x y m Hs) as (out2 & E2 & _ & V2).
    { intros j Hj. specialize (Hh j Hj). lra. }
    exists out1, out2. split; [exact E1 | split; [exact E2 |]].
    intros j Hj.
    destruct (V1 j Hj) as (_ & _ & ->). destruct (V2 j Hj) as (_ & _ & ->).
    split; [reflexivity | split; [reflexivity |]].
    specialize (Hh j Hj). set (s := entry y 0 j ^ 2 + entry y 0 j) in *.
    rewrite !Rabs_Ropp.
    assert (P1 : 0 < 0.01 / (s + eps1)) by (apply Rdiv_lt_0_compat; lra).
    assert (P2 : 0 < 0.01 / (s + eps2)) by (apply Rdiv_lt_0_compat; lra).
    rewrite !Rabs_pos_eq by lra.
    unfold Rdiv. apply Rmult_lt_compat_l; [lra |].
    apply Rinv_lt_contravar; [| lra].
    apply Rmult_lt_0_compat; lra.
  - intros rnd eps1 eps2 xs h hp hpp Hm H0 H1 Hr H12 Hh Hq.
    assert (Hs : 0 <= Rounded.add rnd (Rounded.mul rnd h h) h).
    { assert (Hsq : - h <= Rounded.mul rnd h h).
      { unfold Rounded.mul. rewrite <- Hh. apply Hm. nra. }
      unfold Rounded.add. rewrite <- H0 at 1. apply Hm. lra. }
    set (s := Rounded.add rnd (Rounded.mul rnd h h) h) in *.
    assert (D1 : eps1 <= Rounded.add rnd s eps1).
    { apply Rle_trans with (rnd eps1); [lra |]. apply Hm. lra. }
    assert (D12 : Rounded.add rnd s eps1 <= Rounded.add rnd s eps2).
    { apply Hm. lra. }
    pose proof (rounded_constant_nonpositive rnd Hm H0) as Hk.
    exists (rnd (rnd (-0.01) / Rounded.add rnd s eps1)),
           (rnd (rnd (-0.01) / Rounded.add rnd s eps2)).
    split; [apply rounded_ode_system_column; fold s; lra |].
    split; [apply rounded_ode_system_column; fold s; lra |].
    apply rounded_quotient_damped; auto; lra.
Qed.

Lemma larger_regularisation_damps_rhs_witness :
  (let y := [[0; 1]; [1; 1]; [0; 0]] in
   0 < AdamKicman_v2.eps /\ AdamKicman_v2.eps < GeorgeZhang_v1_1.eps /\
   shape2 y 3 2 /\
   (forall j, (j < 2)%nat -> 0 <= entry y 0 j ^ 2 + entry y 0 j) /\
   exists out1 out2,
     AdamKicman_v2.ode_system [0; 1] y = Ok out1 /\
     GeorgeZhang_v1_1.ode_system [0; 1] y = Ok out2 /\
     forall j, (j < 2)%nat ->
       entry out1 2 j
       = - (0.01 / (entry y 0 j ^ 2 + entry y 0 j + AdamKicman_v2.eps)) /\
       entry out2 2 j
       = - (0.01 / (entry y 0 j ^ 2 + entry y 0 j + GeorgeZhang_v1_1.eps)) /\
       Rabs (entry out2 2 j) < Rabs (entry out1 2 j)) /\
  (Rounded.monotone Rounded.round_down /\ Rounded.round_down 0 = 0 /\
   0 < 1 /\ Rounded.round_down 1 = 1 /\ 1 < 2 /\
   Rounded.round_down (- 3) = - 3 /\ 0 <= 3 ^ 2 + 3 /\
   exists v1 v2,
     Rounded.ode_system Rounded.round_down 1 [0] [[3]; [1]; [0]]
     = Ok [[1]; [0]; [v1]] /\
     Rounded.ode_system Rounded.round_down 2 [0] [[3]; [1]; [0]]
     = Ok [[1]; [0]; [v2]] /\
     v1 <= v2 <= 0 /\
     Rabs v2 <= Rabs v1).
Proof.
  split.
  - assert (H1 : 0 < AdamKicman_v2.eps) by (unfold AdamKicman_v2.eps; lra).
    assert (H12 : AdamKicman_v2.eps < GeorgeZhang_v1_1.eps)
      by (unfold AdamKicman_v2.eps, GeorgeZhang_v1_1.eps; lra).
    assert (Hs : shape2 [[0; 1]; [1; 1]; [0; 0]] 3 2)
      by (apply shape2_of_rows; reflexivity).
    assert (Hh : forall j, (j < 2)%nat ->
              0 <= entry [[0; 1]; [1; 1]; [0; 0]] 0 j ^ 2
                   + entry [[0; 1]; [1; 1]; [0; 0]] 0 j).
    { intros j Hj.
      destruct j as [| [| j]]; [unfold entry; simpl; lra .. | lia]. }
    split; [exact H1 | split; [exact H12 | split; [exact Hs |
      split; [exact Hh |]]]].
    exact (proj1 larger_regularisation_damps_rhs
             AdamKicman_v2.eps GeorgeZhang_v1_1.eps [0; 1] _ 2%nat
             H1 H12 Hs Hh).
  - assert (Hm : Rounded.monotone Rounded.round_down)
      by exact round_down_monotone.
    assert (H0 : Rounded.round_down 0 = 0) by exact (round_down_IZR 0).
    assert (H1 : 0 < 1) by lra.
    assert (Hr : Rounded.round_down 1 = 1) by exact (round_down_IZR 1).
    assert (H12 : 1 < 2) by lra.
    assert (Hh : Rounded.round_down (- 3) = - 3)
      by exact (round_down_IZR (- 3)).
    assert (Hq : 0 <= 3 ^ 2 + 3) by lra.
    split; [exact Hm | split; [exact H0 | split; [exact H1 |
      split; [exact Hr | split; [exact H12 | split; [exact Hh |
      split; [exact Hq |]]]]]]].
    exact (proj2 larger_regularisation_damps_rhs
             Rounded.round_down 1 2 [0] 3 1 0 Hm H0 H1 Hr H12 Hh Hq).
Defined.

End Regularisation.

Section Binary64.
Local Open Scope float_scope.

(** In binary64 the damping is not strict.  With eps1 = 1e-10 and
    eps2 = 1e-9 at h = 5000, with the regularisations 1e-10 and 1e-6 of
    [adam-kicman-v2.py] and [George-Zhang-v1.1.py] at h = 200000, and with
    eps1 = 1e-20 and eps2 = 1e-19 at h = 1, the regularisation is below half
    a unit in the last place of h^2 + h: both right-hand sides are the same
    negative float. *)
Lemma binary64_regularisation_not_strict :
  (PrimFloat.ltb 0 1e-10 = true /\ PrimFloat.ltb 1e-10 1e-9 = true /\
   PrimFloat.leb 0 (5000 * 5000 + 5000) = true /\
   exists v : float,
     Float64.ode_system 1e-10 [0] [[5000]; [1]; [0]]
     = Ok [[1]; [0]; [v]] /\
     Float64.ode_system 1e-9 [0] [[5000]; [1]; [0]]
     = Ok [[1]; [0]; [v]] /\
     PrimFloat.ltb v 0 = true /\
     PrimFloat.ltb (PrimFloat.abs v) (PrimFloat.abs v) = false) /\
  (PrimFloat.ltb 0 1e-10 = true /\ PrimFloat.ltb 1e-10 1e-6 = true /\
   PrimFloat.leb 0 (200000 * 200000 + 200000) = true /\
   exists v : float,
     Float64.ode_system 1e-10 [0] [[200000]; [1]; [0]]
     = Ok [[1]; [0]; [v]] /\
     Float64.ode_system 1e-6 [0] [[200000]; [1]; [0]]
     = Ok [[1]; [0]; [v]] /\
     PrimFloat.ltb v 0 = true /\
     PrimFloat.ltb (PrimFloat.abs v) (PrimFloat.abs v) = false) /\
  (PrimFloat.ltb 0 1e-20 = true /\ PrimFloat.ltb 1e-20 1e-19 = true /\
   PrimFloat.leb 0 (1 * 1 + 1) = true /\
   exists v : float,
     Float64.ode_system 1e-20 [0] [[1]; [1]; [0]]
     = Ok [[1]; [0]; [v]] /\
     Float64.ode_system 1e-19 [0] [[1]; [1]; [0]]
     = Ok [[1]; [0]; [v]] /\
     PrimFloat.ltb v 0 = true /\
     PrimFloat.ltb (PrimFloat.abs v) (PrimFloat.abs v) = false).
Proof.
  repeat split; try (vm_compute; reflexivity);
    eexists; (split; [vm_compute; reflexivity |]);
    repeat split; vm_compute; reflexivity.
Qed.

(** The regularisation of [adam-kicman-v2.py] is absorbed at h = 1500: the
    regularised and the unregularised right-hand sides are the same float. *)
Lemma binary64_regularisation_absorbed :
  Float64.ode_system 1e-10 [0] [[1500]; [1]; [0]]
  = Float64.ode_system_unregularised [0] [[1500]; [1]; [0]].
Proof. vm_compute. reflexivity. Qed.

End Binary64.
(** ** [np.gradient] on a mesh *)

Section Gradient.
Import Np.

Lemma diff_nth (x : array) (i : nat) :
  (S i < length x)%nat -> nth i (diff x) 0 = nth (S i) x 0 - nth i x 0.
Proof.
  intros Hi. unfold diff. rewrite nth_map_seq by lia. reflexivity.
Qed.

Lemma diff_length (x : array) : length (diff x) = (length x - 1)%nat.
Proof. unfold diff. now rewrite length_map, length_seq. Qed.

Lemma all_equal_first_nth (d : array) (i : nat) :
  all_equal_first d = true -> (i < length d)%nat -> nth i d 0 = nth 0 d 0.
Proof.
  intros Hu Hi. unfold all_equal_first in Hu.
  rewrite forallb_forall in Hu.
  specialize (Hu (nth i d 0) (nth_In d 0 Hi)).
  destruct (Req_dec_T (nth i d 0) (nth 0 d 0)); [assumption | discriminate].
Qed.

Lemma gradient_at_ok (f x : array) (i : nat) :
  strictly_increasing x -> length x = length f -> (2 <= length f)%nat ->
  (i < length f)%nat ->
  gradient_at f (diff x) (all_equal_first (diff x)) (length f) i
  = Ok (finite_difference f x i).
Proof.
  intros Hinc Hlen Hn Hi.
  set (n := length f) in *.
  assert (Hd : forall k, (S k < n)%nat ->
             nth k (diff x) 0 = nth (S k) x 0 - nth k x 0)
    by (intros k Hk; apply diff_nth; lia).
  assert (Hp : forall k, (S k < n)%nat -> 0 < nth (S k) x 0 - nth k x 0).
  { intros k Hk. assert (nth k x 0 < nth (S k) x 0) by (apply Hinc; lia). lra. }
  assert (Hu : all_equal_first (diff x) = true ->
               forall k, (S k < n)%nat -> nth k (diff x) 0 = nth 0 (diff x) 0).
  { intros Hu k Hk. apply all_equal_first_nth; [exact Hu |].
    rewrite diff_length. lia. }
  unfold gradient_at, finite_difference. fold n.
  destruct (Nat.eqb_spec i 0) as [-> | Hi0].
  - rewrite (Hd 0%nat) by lia. apply fdiv_ok.
    specialize (Hp 0%nat ltac:(lia)). lra.
  - destruct (Nat.eqb_spec i (n - 1)) as [-> | Hin].
    + assert (Hl : nth (n - 2) (diff x) 0 = nth (n - 1) x 0 - nth (n - 2) x 0).
      { rewrite Hd by lia. replace (S (n - 2)) with (n - 1)%nat by lia.
        reflexivity. }
      assert (Hlp : 0 < nth (n - 1) x 0 - nth (n - 2) x 0).
      { specialize (Hp (n - 2)%nat ltac:(lia)).
        replace (S (n - 2)) with (n - 1)%nat in Hp by lia. exact Hp. }
      destruct (all_equal_first (diff x)) eqn:U.
      * rewrite <- (Hu eq_refl (n - 2)%nat) by lia. rewrite Hl.
        apply fdiv_ok. lra.
      * rewrite Hl. apply fdiv_ok. lra.
    + assert (H1 : nth (i - 1) (diff x) 0 = nth i x 0 - nth (i - 1) x 0).
      { rewrite Hd by lia. replace (S (i - 1)) with i by lia. reflexivity. }
      assert (H2 : nth i (diff x) 0 = nth (i + 1) x 0 - nth i x 0).
      { rewrite Hd by lia. replace (S i) with (i + 1)%nat by lia. reflexivity. }
      assert (P1 : 0 < nth i x 0 - nth (i - 1) x 0).
      { specialize (Hp (i - 1)%nat ltac:(lia)).
        replace (S (i - 1)) with i in Hp by lia. exact Hp. }
      assert (P2 : 0 < nth (i + 1) x 0 - nth i x 0).
      { specialize (Hp i ltac:(lia)).
        replace (S i) with (i + 1)%nat in Hp by lia. exact Hp. }
      set (hs := nth i x 0 - nth (i - 1) x 0) in *.
      set (hd := nth (i + 1) x 0 - nth i x 0) in *.
      destruct (all_equal_first (diff x)) eqn:U.
      * assert (E1 : nth 0 (diff x) 0 = hs)
          by (rewrite <- (Hu eq_refl (i - 1)%nat) by lia; exact H1).
        assert (E2 : nth 0 (diff x) 0 = hd)
          by (rewrite <- (Hu eq_refl i) by lia; exact H2).
        rewrite E1. rewrite fdiv_ok by lra. f_equal.
        assert (E : hd = hs) by congruence. rewrite E. field. lra.
      * rewrite H1, H2.
        assert (0 < hs * (hs + hd)) by (apply Rmult_lt_0_compat; lra).
        assert (0 < hs * hd) by (apply Rmult_lt_0_compat; lra).
        assert (0 < hd * (hs + hd)) by (apply Rmult_lt_0_compat; lra).
        rewrite !fdiv_ok by lra. cbn [bind]. f_equal. field. lra.
Qed.

(** On an strictly_increasing mesh [np.gradient] is defined and computes the
    finite-difference quotients. *)
Lemma gradient_ok (f x : array) :
  strictly_increasing x -> length x = length f -> (2 <= length f)%nat ->
  gradient f x = Ok (map (finite_difference f x) (seq 0 (length f))).
Proof.
  intros Hinc Hlen Hn. unfold gradient.
  rewrite Hlen, Nat.eqb_refl. cbn [negb].
  assert (Hd : exists d0, getitem (diff x) 0 = Ok d0).
  { unfold getitem. destruct (nth_error (diff x) 0) as [d0 |] eqn:E.
    - now exists d0.
    - apply nth_error_None in E. rewrite diff_length in E. lia. }
  destruct Hd as (d0 & ->). cbn [bind].
  destruct (Nat.ltb_spec (length f) 2) as [Hlt | _]; [lia |].
  apply mapM_ok. intros i Hi. apply in_seq in Hi.
  apply gradient_at_ok; auto. lia.
Qed.

End Gradient.


(** ** The shape-aware guess and the residuals of a guess *)

Section Guess.
Import Np.



Lemma finite_difference_interior (f x : array) (i : nat) :
  (0 < i)%nat -> (i + 1 < length f)%nat ->
  finite_difference f x i
  = let hs := nth i x 0 - nth (i - 1) x 0 in
    let hd := nth (i + 1) x 0 - nth i x 0 in
    (hs ^ 2 * nth (i + 1) f 0 + (hd ^ 2 - hs ^ 2) * nth i f 0
     - hd ^ 2 * nth (i - 1) f 0) / (hs * hd * (hd + hs)).
Proof.
  intros H0 H1. unfold finite_difference.
  destruct (Nat.eqb_spec i 0) as [E | _]; [lia |].
  destruct (Nat.eqb_spec i (length f - 1)) as [E | _]; [lia |].
  reflexivity.
Qed.

Lemma h_guess_ok (L : R) (x : array) :
  L <> 0 ->
  AdamKicman_v2.h_guess L x = Ok (map (fun a => a - (a / L) ^ 3) x).
Proof.
  intros HL. unfold AdamKicman_v2.h_guess. rewrite divs_ok by exact HL.
  cbn [bind]. rewrite map_map. rewrite <- (map_id x) at 1.
  apply (vsub_map (fun a => a) (fun a => (a / L) ^ 3)).
Qed.

Lemma set_row0 (r0 r1 r2 v : array) :
  length v = length r0 -> set_row [r0; r1; r2] 0 v = Ok [v; r1; r2].
Proof. intros H. simpl. now rewrite H, Nat.eqb_refl. Qed.

Lemma set_row1 (r0 r1 r2 v : array) :
  length v = length r1 -> set_row [r0; r1; r2] 1 v = Ok [r0; v; r2].
Proof. intros H. simpl. now rewrite H, Nat.eqb_refl. Qed.

Lemma set_row2 (r0 r1 r2 v : array) :
  length v = length r2 -> set_row [r0; r1; r2] 2 v = Ok [r0; r1; v].
Proof. intros H. simpl. now rewrite H, Nat.eqb_refl. Qed.

(** The rows of the shape-aware guess on an strictly_increasing mesh. *)
Lemma shape_y_init_rows (L : R) (x : array) :
  L <> 0 -> strictly_increasing x -> (2 <= length x)%nat ->
  let h := map (fun a => a - (a / L) ^ 3) x in
  let g := map (finite_difference h x) (seq 0 (length x)) in
  let g2 := map (finite_difference g x) (seq 0 (length x)) in
  gradient h x = Ok g /\ gradient g x = Ok g2 /\
  AdamKicman_v2.shape_y_init L x = Ok [h; g; g2].
Proof.
  intros HL Hinc Hn h g g2.
  assert (Lh : length h = length x) by (unfold h; now rewrite length_map).
  assert (Lg : length g = length x)
    by (unfold g; now rewrite length_map, length_seq).
  assert (Lg2 : length g2 = length x)
    by (unfold g2; now rewrite length_map, length_seq).
  assert (G1 : gradient h x = Ok g).
  { rewrite gradient_ok; [unfold g; now rewrite Lh | | |]; auto; lia. }
  assert (G2 : gradient g x = Ok g2).
  { rewrite gradient_ok; [unfold g2; now rewrite Lg | | |]; auto; lia. }
  split; [exact G1 | split; [exact G2 |]].
  unfold AdamKicman_v2.shape_y_init. rewrite h_guess_ok by exact HL.
  cbn [bind]. fold h. unfold zeros. cbn [repeat].
  rewrite set_row0 by (now rewrite repeat_length). cbn [bind].
  rewrite G1. cbn [bind].
  rewrite set_row1 by (now rewrite repeat_length). cbn [bind].
  unfold getitem at 1. cbn [nth_error bind].
  rewrite G2. cbn [bind].
  apply set_row2. now rewrite repeat_length.
Qed.




End Guess.


(** ** Uniform meshes and the cubic profile *)

Section UniformMesh.
Import Np.

(** The spacing of [linspace 0 L n]. *)
Lemma linspace0_nth (L : R) (n j : nat) :
  (2 <= n)%nat -> (j < n)%nat ->
  nth j (linspace 0 L n) 0 = INR j * (L / INR (n - 1)).
Proof.
  intros Hn Hj. rewrite linspace_nth by assumption.
  unfold Rminus. rewrite Ropp_0, Rplus_0_r, Rplus_0_l. reflexivity.
Qed.

Lemma spacing_pos (L : R) (n : nat) :
  0 < L -> (2 <= n)%nat -> 0 < L / INR (n - 1).
Proof.
  intros HL Hn. apply Rdiv_lt_0_compat; [exact HL |].
  apply lt_0_INR. lia.
Qed.

Lemma linspace_strictly_increasing (L : R) (n : nat) :
  0 < L -> strictly_increasing (linspace 0 L n).
Proof.
  intros HL i Hi. rewrite linspace_length in Hi.
  rewrite !linspace0_nth by lia.
  pose proof (spacing_pos L n HL ltac:(lia)) as HD.
  rewrite S_INR. nra.
Qed.

Lemma linspace_within (L : R) (n j : nat) :
  0 <= L -> (j < n)%nat ->
  0 <= nth j (linspace 0 L n) 0 <= L.
Proof.
  intros HL Hj. destruct (le_lt_dec 2 n) as [Hn | Hn].
  - rewrite linspace0_nth by assumption.
    assert (Hk : 0 < INR (n - 1)) by (apply lt_0_INR; lia).
    assert (Hjk : INR j <= INR (n - 1)) by (apply le_INR; lia).
    pose proof (pos_INR j) as Hj0.
    assert (E : INR j * (L / INR (n - 1)) = L * (INR j / INR (n - 1)))
      by (field; lra).
    rewrite E.
    assert (0 <= INR j / INR (n - 1) <= 1).
    { split.
      - apply Rmult_le_pos; [exact Hj0 |]. left. now apply Rinv_0_lt_compat.
      - apply (Rmult_le_reg_r (INR (n - 1))); [exact Hk |].
        unfold Rdiv. rewrite Rmult_assoc, Rinv_l by lra. lra. }
    nra.
  - assert (n = 1%nat) by lia. subst n. assert (j = 0%nat) by lia. subst j.
    simpl. lra.
Qed.

(** The cubic guess is nonnegative between 0 and L once L is at least 1. *)
Lemma cubic_guess_nonneg (L a : R) :
  1 <= L -> 0 <= a <= L -> 0 <= a - (a / L) ^ 3.
Proof.
  intros HL [Ha0 HaL].
  assert (Ht : 0 <= a / L <= 1).
  { split.
    - apply Rmult_le_pos; [exact Ha0 |]. left. apply Rinv_0_lt_compat. lra.
    - apply (Rmult_le_reg_r L); [lra |].
      unfold Rdiv. rewrite Rmult_assoc, Rinv_l by lra. lra. }
  assert (E : a = a / L * L) by (field; lra).
  set (t := a / L) in *.
  assert (0 <= t * (1 - t) * (1 + t)).
  { apply Rmult_le_pos; [apply Rmult_le_pos |]; lra. }
  assert (t * 1 <= t * L) by (apply Rmult_le_compat_l; lra).
  replace (t ^ 3) with (t - t * (1 - t) * (1 + t)) by ring.
  lra.
Qed.

End UniformMesh.

Section CubicGuess.
Import Np.

(** C10.  For every truncation length L >= 1 and every mesh whose points lie
    in [0, L], the cubic guess h(x) = x - (x/L)^3 is built without error, is
    nonnegative at every mesh point and vanishes where x = 0; in particular
    the guess built on [linspace 0 20 n], the mesh of the script for every
    mesh size n, is nonnegative at every point. *)
Theorem h_guess_nonnegative :
  (forall (L : R) (x : array),
     1 <= L ->
     (forall j, (j < length x)%nat -> 0 <= nth j x 0 <= L) ->
     exists h,
       AdamKicman_v2.h_guess L x = Ok h /\
       length h = length x /\
       forall j, (j < length x)%nat ->
         nth j h 0 = nth j x 0 - (nth j x 0 / L) ^ 3 /\
         0 <= nth j h 0 /\
         (nth j x 0 = 0 -> nth j h 0 = 0)) /\
  (forall n : nat,
     exists h,
       AdamKicman_v2.h_guess AdamKicman_v2.x_max
         (linspace 0 AdamKicman_v2.x_max n) = Ok h /\
       length h = n /\
       forall j, (j < n)%nat -> 0 <= nth j h 0).
Proof.
  assert (G : forall (L : R) (x : array),
     1 <= L ->
     (forall j, (j < length x)%nat -> 0 <= nth j x 0 <= L) ->
     exists h,
       AdamKicman_v2.h_guess L x = Ok h /\
       length h = length x /\
       forall j, (j < length x)%nat ->
         nth j h 0 = nth j x 0 - (nth j x 0 / L) ^ 3 /\
         0 <= nth j h 0 /\
         (nth j x 0 = 0 -> nth j h 0 = 0)).
  { intros L x HL Hx.
    exists (map (fun a => a - (a / L) ^ 3) x).
    split; [apply h_guess_ok; lra |]. split; [apply length_map |].
    intros j Hj. rewrite (nth_map_in _ x 0 j) by exact Hj.
    split; [reflexivity |]. split.
    - apply cubic_guess_nonneg; auto.
    - intros ->. unfold Rdiv. rewrite Rmult_0_l. ring. }
  split; [exact G |].
  intros n. set (x := linspace 0 AdamKicman_v2.x_max n).
  assert (Hlen : length x = n) by apply linspace_length.
  destruct (G AdamKicman_v2.x_max x) as (h & E & Lh & V).
  - unfold AdamKicman_v2.x_max. lra.
  - intros j Hj. apply linspace_within; [unfold AdamKicman_v2.x_max; lra | lia].
  - exists h. split; [exact E |]. split; [congruence |].
    intros j Hj. apply V. lia.
Qed.

Lemma h_guess_nonnegative_witness :
  1 <= 20 /\
  (forall j, (j < length [0; 10; 20])%nat -> 0 <= nth j [0; 10; 20] 0 <= 20) /\
  exists h,
    AdamKicman_v2.h_guess 20 [0; 10; 20] = Ok h /\
    length h = length [0; 10; 20] /\
    forall j, (j < length [0; 10; 20])%nat ->
      nth j h 0 = nth j [0; 10; 20] 0 - (nth j [0; 10; 20] 0 / 20) ^ 3 /\
      0 <= nth j h 0 /\
      (nth j [0; 10; 20] 0 = 0 -> nth j h 0 = 0).
Proof.
  assert (HL : 1 <= 20) by lra.
  assert (Hx : forall j, (j < length [0; 10; 20])%nat ->
                 0 <= nth j [0; 10; 20] 0 <= 20).
  { intros j Hj. destruct j as [| [| [| j]]]; simpl in *; try lra; lia. }
  split; [exact HL | split; [exact Hx |]].
  exact (proj1 h_guess_nonnegative 20 [0; 10; 20] HL Hx).
Defined.

End CubicGuess.


(** ** The two guess strategies *)

Section InitialGuess.
Import Np.

(** C5.  On every mesh the linear strategy assigns h = x, h' = 1, h'' = 0
    at every mesh point.  On every mesh of at least two strictly increasing
    points and for L <> 0 the shape-aware strategy assigns
    h = x - (x/L)^3, takes h' to be [np.gradient] of that h on the mesh and
    h'' to be [np.gradient] of that h' on the mesh, and the entries of h' and
    h'' are the finite-difference quotients of the row above them. *)
Theorem initial_guess_strategies :
  (forall x : array,
     exists y,
       Bvp.linear_y_init x = Ok y /\
       shape2 y 3 (length x) /\
       forall j, (j < length x)%nat ->
         entry y 0 j = nth j x 0 /\ entry y 1 j = 1 /\ entry y 2 j = 0) /\
  (forall (L : R) (x : array),
     L <> 0 -> strictly_increasing x -> (2 <= length x)%nat ->
     exists y,
       AdamKicman_v2.shape_y_init L x = Ok y /\
       shape2 y 3 (length x) /\
       gradient (nth 0 y []) x = Ok (nth 1 y []) /\
       gradient (nth 1 y []) x = Ok (nth 2 y []) /\
       forall j, (j < length x)%nat ->
         entry y 0 j = nth j x 0 - (nth j x 0 / L) ^ 3 /\
         entry y 1 j = finite_difference (nth 0 y []) x j /\
         entry y 2 j = finite_difference (nth 1 y []) x j).
Proof.
  split.
  - intros x. eexists. split; [apply linear_y_init_rows |].
    split; [apply shape2_of_rows; auto using repeat_length |].
    intros j Hj. rewrite entry_row0, entry_row1, entry_row2.
    rewrite !repeat_nth by exact Hj. repeat split; lra.
  - intros L x HL Hinc Hn.
    destruct (shape_y_init_rows L x HL Hinc Hn) as (G1 & G2 & E).
    eexists. split; [exact E |].
    split; [apply shape2_of_rows;
            rewrite ?length_map, ?length_seq; reflexivity |].
    cbn [nth]. split; [exact G1 | split; [exact G2 |]].
    intros j Hj. rewrite entry_row0, entry_row1, entry_row2.
    rewrite (nth_map_in _ x 0 j) by exact Hj.
    rewrite !nth_map_seq by exact Hj. repeat split.
Qed.

Lemma initial_guess_strategies_witness :
  20 <> 0 /\ strictly_increasing [0; 10; 20] /\
  (2 <= length [0; 10; 20])%nat /\
  exists y,
    AdamKicman_v2.shape_y_init 20 [0; 10; 20] = Ok y /\
    shape2 y 3 (length [0; 10; 20]) /\
    gradient (nth 0 y []) [0; 10; 20] = Ok (nth 1 y []) /\
    gradient (nth 1 y []) [0; 10; 20] = Ok (nth 2 y []) /\
    forall j, (j < length [0; 10; 20])%nat ->
      entry y 0 j = nth j [0; 10; 20] 0 - (nth j [0; 10; 20] 0 / 20) ^ 3 /\
      entry y 1 j = finite_difference (nth 0 y []) [0; 10; 20] j /\
      entry y 2 j = finite_difference (nth 1 y []) [0; 10; 20] j.
Proof.
  assert (HL : 20 <> 0) by lra.
  assert (Hinc : strictly_increasing [0; 10; 20]).
  { intros i Hi. destruct i as [| [| i]]; simpl in *; try lra; lia. }
  assert (Hn : (2 <= length [0; 10; 20])%nat) by (simpl; lia).
  split; [exact HL | split; [exact Hinc | split; [exact Hn |]]].
  exact (proj2 initial_guess_strategies 20 [0; 10; 20] HL Hinc Hn).
Defined.

End InitialGuess.

Section GuessResiduals.
Import Np.







End GuessResiduals.

(** ** The collocation solver *)

Section CollocationProperties.
Import Np Scipy Collocation.




Section Run.
Variable fit : array -> array2 -> R -> R * R * R.
Variable newton :
  (array -> array2 -> result array2) -> (array -> array -> result array) ->
  R -> array -> array2 -> array2 * bool.
Variable estimate :
  (array -> array2 -> result array2) -> array -> array2 -> nat -> R.
Variable f : array -> array2 -> result array2.
Variable bc : array -> array -> result array.





End Run.



End CollocationProperties.

(** ** After the solve *)

Section PostSolve.
Import Np Scipy Collocation.


Lemma adam_kicman_v2_y_init_ok :
  exists y0, AdamKicman_v2.y_init = Ok y0.
Proof.
  unfold AdamKicman_v2.y_init.
  destruct (shape_y_init_rows AdamKicman_v2.x_max AdamKicman_v2.x)
    as (_ & _ & E).
  - unfold AdamKicman_v2.x_max. lra.
  - apply linspace_strictly_increasing. unfold AdamKicman_v2.x_max. lra.
  - unfold AdamKicman_v2.x. rewrite linspace_length.
    unfold AdamKicman_v2.N. lia.
  - eexists. exact E.
Qed.







End PostSolve.


(** ** Closed-form profiles *)

Section ClosedForms.
Import Np.

Lemma e_pos : 0 < e.
Proof. apply exp_pos. Qed.

Lemma theta_cubed_ok (x : R) :
  0 < x -> CoxVoinov.theta_cubed x = Ok (1 + 0.03 * ln (e * x)).
Proof.
  intros Hx. unfold CoxVoinov.theta_cubed, log.
  destruct (Rlt_dec 0 (e * x)) as [_ | N]; [reflexivity |].
  elim N. apply Rmult_lt_0_compat; [apply e_pos | exact Hx].
Qed.

Lemma theta_ok (x : R) :
  0 < x -> 0 < 1 + 0.03 * ln (e * x) ->
  CoxVoinov.theta x = Ok (Rpower (1 + 0.03 * ln (e * x)) (1 / 3)).
Proof.
  intros Hx Ht. unfold CoxVoinov.theta. rewrite theta_cubed_ok by exact Hx.
  simpl. unfold power.
  destruct (Rlt_dec 0 (1 + 0.03 * ln (e * x))); [reflexivity | contradiction].
Qed.

Lemma Rpower_pos (b c : R) : 0 < Rpower b c.
Proof. unfold Rpower. apply exp_pos. Qed.

Lemma dtheta_dx_ok (x : R) :
  0 < x -> 0 < 1 + 0.03 * ln (e * x) ->
  CoxVoinov.dtheta_dx x
  = Ok (0.01 / (x * Rpower (1 + 0.03 * ln (e * x)) (1 / 3) ^ 2)).
Proof.
  intros Hx Ht. unfold CoxVoinov.dtheta_dx. rewrite theta_ok by assumption.
  simpl bind. apply fdiv_ok.
  pose proof (Rpower_pos (1 + 0.03 * ln (e * x)) (1 / 3)) as Hp.
  apply Rgt_not_eq. apply Rmult_lt_0_compat; [exact Hx |].
  apply pow_lt. exact Hp.
Qed.

(** The cube of the cube root. *)
Lemma cube_of_cube_root (b : R) : 0 < b -> Rpower b (1 / 3) ^ 3 = b.
Proof.
  intros Hb. rewrite <- (Rpower_pow 3) by apply Rpower_pos.
  rewrite Rpower_mult. replace (1 / 3 * INR 3) with 1 by (simpl; field).
  now apply Rpower_1.
Qed.

Lemma Rpower_minus_two_thirds (b : R) :
  0 < b -> Rpower b (1 / 3 - 1) = / (Rpower b (1 / 3) ^ 2).
Proof.
  intros Hb. pose proof (Rpower_pos b (1 / 3)) as Hp.
  pose proof (cube_of_cube_root b Hb) as Hc.
  unfold Rminus. rewrite Rpower_plus, Rpower_Ropp, Rpower_1 by exact Hb.
  rewrite <- Hc at 2. field. lra.
Qed.

(** The derivative of [x |-> 1 + 0.03 * ln (e * x)]. *)
Lemma theta_cubed_derivative (x : R) :
  0 < x -> derivable_pt_lim (fun z => 1 + 0.03 * ln (e * z)) x (0.03 / x).
Proof.
  intros Hx. pose proof e_pos as He.
  assert (D1 : derivable_pt_lim (fun z => e * z) x e).
  { apply (derivable_pt_lim_ext (mult_real_fct e id)); [reflexivity |].
    replace e with (e * 1) at 2 by lra.
    apply derivable_pt_lim_scal, derivable_pt_lim_id. }
  assert (D2 : derivable_pt_lim (fun z => ln (e * z)) x (/ (e * x) * e)).
  { apply (derivable_pt_lim_comp (fun z => e * z) ln); [exact D1 |].
    apply derivable_pt_lim_ln. now apply Rmult_lt_0_compat. }
  apply (derivable_pt_lim_ext
           (fct_cte 1 + mult_real_fct 0.03 (fun z => ln (e * z)))%F);
    [reflexivity |].
  replace (0.03 / x) with (0 + 0.03 * (/ (e * x) * e)) by (field; lra).
  apply derivable_pt_lim_plus; [apply derivable_pt_lim_const |].
  apply derivable_pt_lim_scal. exact D2.
Qed.

Lemma theta_cubed_positive_above (z : R) :
  exp (- (1 / 0.03) - 1) < z -> 0 < z /\ 0 < 1 + 0.03 * ln (e * z).
Proof.
  intros Hz. pose proof (exp_pos (- (1 / 0.03) - 1)) as Ha.
  assert (Hz0 : 0 < z) by lra. split; [exact Hz0 |].
  unfold e. rewrite ln_mult by (try apply exp_pos; exact Hz0).
  rewrite ln_exp.
  pose proof (ln_increasing _ _ Ha Hz) as Hl. rewrite ln_exp in Hl. lra.
Qed.

Lemma theta_cubed_positive_inv (x : R) :
  0 < x -> 0 < 1 + 0.03 * ln (e * x) -> exp (- (1 / 0.03) - 1) < x.
Proof.
  intros Hx Ht. unfold e in Ht.
  rewrite ln_mult, ln_exp in Ht by (try apply exp_pos; exact Hx).
  rewrite <- (exp_ln x Hx). apply exp_increasing. lra.
Qed.

(** The derivative of [theta] where [theta_cubed] is positive. *)
Lemma theta_derivative (x : R) :
  0 < x -> 0 < 1 + 0.03 * ln (e * x) ->
  derivable_pt_lim (fun z => value (CoxVoinov.theta z)) x
    (0.01 / (x * Rpower (1 + 0.03 * ln (e * x)) (1 / 3) ^ 2)).
Proof.
  intros Hx Ht.
  apply (derivable_pt_lim_locally_ext
           (fun z => Rpower (1 + 0.03 * ln (e * z)) (1 / 3))
           _ x (exp (- (1 / 0.03) - 1)) (x + 1)).
  - split; [now apply theta_cubed_positive_inv | lra].
  - intros z [Hz _]. destruct (theta_cubed_positive_above z Hz) as [Hz0 Hzt].
    rewrite theta_ok by assumption. reflexivity.
  - pose proof (Rpower_pos (1 + 0.03 * ln (e * x)) (1 / 3)) as Hp.
    replace (0.01 / (x * Rpower (1 + 0.03 * ln (e * x)) (1 / 3) ^ 2))
      with (1 / 3 * Rpower (1 + 0.03 * ln (e * x)) (1 / 3 - 1) * (0.03 / x)).
    + apply (derivable_pt_lim_comp (fun z => 1 + 0.03 * ln (e * z))
               (fun b => Rpower b (1 / 3))).
      * now apply theta_cubed_derivative.
      * now apply derivable_pt_lim_power.
    + rewrite Rpower_minus_two_thirds by exact Ht.
      set (t := Rpower (1 + 0.03 * ln (e * x)) (1 / 3)) in *.
      replace 0.03 with (3 * 0.01) by lra. field. split; lra.
Qed.

(** C8.  For every x > 0 with theta_cubed(x) > 0 the three functions are
    evaluated without error, dtheta_dx(x) = 0.01 / (x theta(x)^2) with
    theta(x) = (1 + 0.03 ln(e x))^(1/3), the identity
    3 theta(x)^2 x dtheta_dx(x) = 0.03 holds, and dtheta_dx(x) is the
    derivative of theta at x. *)
Theorem dtheta_dx_is_derivative_of_theta :
  forall x : R,
    0 < x -> 0 < value (CoxVoinov.theta_cubed x) ->
    exists t d,
      CoxVoinov.theta x = Ok t /\
      t = Rpower (1 + 0.03 * ln (e * x)) (1 / 3) /\
      CoxVoinov.dtheta_dx x = Ok d /\
      d = 0.01 / (x * t ^ 2) /\
      3 * t ^ 2 * x * d = 0.03 /\
      derivable_pt_lim (fun z => value (CoxVoinov.theta z)) x d.
Proof.
  intros x Hx Ht. rewrite theta_cubed_ok in Ht by exact Hx. simpl in Ht.
  pose proof (Rpower_pos (1 + 0.03 * ln (e * x)) (1 / 3)) as Hp.
  exists (Rpower (1 + 0.03 * ln (e * x)) (1 / 3)).
  exists (0.01 / (x * Rpower (1 + 0.03 * ln (e * x)) (1 / 3) ^ 2)).
  split; [now apply theta_ok |]. split; [reflexivity |].
  split; [now apply dtheta_dx_ok |]. split; [reflexivity |].
  split; [| now apply theta_derivative].
  set (t := Rpower (1 + 0.03 * ln (e * x)) (1 / 3)) in *.
  replace 0.03 with (3 * 0.01) by lra. field. split; lra.
Qed.

Lemma dtheta_dx_is_derivative_of_theta_witness :
  0 < 1 /\ 0 < value (CoxVoinov.theta_cubed 1) /\
  exists t d,
    CoxVoinov.theta 1 = Ok t /\
    t = Rpower (1 + 0.03 * ln (e * 1)) (1 / 3) /\
    CoxVoinov.dtheta_dx 1 = Ok d /\
    d = 0.01 / (1 * t ^ 2) /\
    3 * t ^ 2 * 1 * d = 0.03 /\
    derivable_pt_lim (fun z => value (CoxVoinov.theta z)) 1 d.
Proof.
  assert (H1 : 0 < 1) by lra.
  assert (Ht : 0 < value (CoxVoinov.theta_cubed 1)).
  { rewrite theta_cubed_ok by lra. simpl. unfold e.
    rewrite Rmult_1_r, ln_exp. lra. }
  split; [exact H1 | split; [exact Ht |]].
  exact (dtheta_dx_is_derivative_of_theta 1 H1 Ht).
Defined.
End ClosedForms.

Section ChainRule.
Import Np.

Lemma h_prime_ok (h : R) :
  h ^ 2 + h <> 0 -> GeorgeZhang_v1_0.h_prime h = Ok (-0.01 / (h ^ 2 + h)).
Proof. intros Hd. unfold GeorgeZhang_v1_0.h_prime. now apply fdiv_ok. Qed.

Lemma h_double_prime_ok (h : R) :
  h ^ 2 + h <> 0 ->
  GeorgeZhang_v1_0.h_double_prime h
  = Ok (-0.0001 * (2 * h + 1) / (h ^ 2 + h) ^ 3).
Proof.
  intros Hd. unfold GeorgeZhang_v1_0.h_double_prime. apply fdiv_ok.
  now apply pow_nonzero.
Qed.

Lemma h_prime_value (z : R) :
  value (GeorgeZhang_v1_0.h_prime z) = -0.01 / (z ^ 2 + z).
Proof.
  unfold GeorgeZhang_v1_0.h_prime, fdiv.
  destruct (Req_dec_T (z ^ 2 + z) 0) as [E | N]; cbn [value]; [| reflexivity].
  rewrite E. unfold Rdiv. rewrite Rinv_0. lra.
Qed.

(** The derivative of [h_prime] with respect to [h]. *)
Lemma h_prime_derivative (h : R) :
  h ^ 2 + h <> 0 ->
  derivable_pt_lim (fun z => value (GeorgeZhang_v1_0.h_prime z)) h
    (0.01 * (2 * h + 1) / (h ^ 2 + h) ^ 2).
Proof.
  intros Hd.
  apply (derivable_pt_lim_ext
           (fct_cte (-0.01) / ((fun z => z ^ 2) + id))%F).
  - intros z. rewrite h_prime_value. reflexivity.
  - replace (0.01 * (2 * h + 1) / (h ^ 2 + h) ^ 2)
      with ((0 * ((fun z => z ^ 2) + id)%F h
             - (INR 2 * h ^ pred 2 + 1) * fct_cte (-0.01) h)
            / Rsqr (((fun z => z ^ 2) + id)%F h)).
    + apply derivable_pt_lim_div.
      * apply derivable_pt_lim_const.
      * apply derivable_pt_lim_plus;
          [apply derivable_pt_lim_pow | apply derivable_pt_lim_id].
      * exact Hd.
    + unfold plus_fct, fct_cte, id, Rsqr. simpl.
      replace (-0.01) with (- (0.01)) by lra. field.
      intros E. apply Hd. rewrite <- E. ring.
Qed.

(** C9.  For every h with h^2 + h <> 0, h_double_prime(h)
    = -0.0001 (2h + 1) / (h^2 + h)^3 is the derivative of h_prime with respect
    to h, times h_prime(h), where h_prime(h) = -0.01 / (h^2 + h). *)
Theorem h_double_prime_is_chain_rule :
  forall h : R,
    h ^ 2 + h <> 0 ->
    exists p q d,
      GeorgeZhang_v1_0.h_prime h = Ok p /\
      p = - 0.01 / (h ^ 2 + h) /\
      GeorgeZhang_v1_0.h_double_prime h = Ok q /\
      q = - 0.0001 * (2 * h + 1) / (h ^ 2 + h) ^ 3 /\
      derivable_pt_lim (fun z => value (GeorgeZhang_v1_0.h_prime z)) h d /\
      q = d * p.
Proof.
  intros h Hd.
  exists (-0.01 / (h ^ 2 + h)), (-0.0001 * (2 * h + 1) / (h ^ 2 + h) ^ 3),
         (0.01 * (2 * h + 1) / (h ^ 2 + h) ^ 2).
  split; [now apply h_prime_ok |]. split; [reflexivity |].
  split; [now apply h_double_prime_ok |]. split; [reflexivity |].
  split; [now apply h_prime_derivative |].
  replace (-0.0001) with (- (0.01 * 0.01)) by lra.
  replace (-0.01) with (- (0.01)) by lra. field.
  intros E. apply Hd. rewrite <- E. ring.
Qed.

Lemma h_double_prime_is_chain_rule_witness :
  1 ^ 2 + 1 <> 0 /\
  exists p q d,
    GeorgeZhang_v1_0.h_prime 1 = Ok p /\
    p = - 0.01 / (1 ^ 2 + 1) /\
    GeorgeZhang_v1_0.h_double_prime 1 = Ok q /\
    q = - 0.0001 * (2 * 1 + 1) / (1 ^ 2 + 1) ^ 3 /\
    derivable_pt_lim (fun z => value (GeorgeZhang_v1_0.h_prime z)) 1 d /\
    q = d * p.
Proof.
  assert (H : 1 ^ 2 + 1 <> 0) by lra.
  split; [exact H |]. exact (h_double_prime_is_chain_rule 1 H).
Defined.

End ChainRule.


(** * Further properties of the scripts *)

(** ** Further properties of the right-hand sides *)

Section RightHandSideBounds.
Import Np.

(** X1.  With a positive regularisation and a nonnegative film thickness on
    the mesh, the third derivative returned by [ode_system] lies in
    [-0.01/eps, 0) at every mesh point, and equals -0.01/eps where h = 0. *)
Theorem regularised_rhs_bounded :
  forall (eps : R) (x : array) (y : array2) (m : nat),
    0 < eps -> shape2 y 3 m ->
    (forall j, (j < m)%nat -> 0 <= entry y 0 j) ->
    exists out,
      Bvp.ode_system eps x y = Ok out /\
      forall j, (j < m)%nat ->
        - (0.01 / eps) <= entry out 2 j < 0 /\
        (entry y 0 j = 0 -> entry out 2 j = - (0.01 / eps)).
Proof.
  intros eps x y m He Hs Hh.
  destruct (ode_system_entries eps x y m Hs) as (out & E & _ & V).
  { intros j Hj. specialize (Hh j Hj). nra. }
  exists out. split; [exact E |]. intros j Hj.
  destruct (V j Hj) as (_ & _ & ->). specialize (Hh j Hj).
  set (h := entry y 0 j) in *.
  assert (Hd : eps <= h ^ 2 + h + eps) by nra.
  assert (P : 0 < 0.01 / (h ^ 2 + h + eps)) by (apply Rdiv_lt_0_compat; lra).
  assert (B : 0.01 / (h ^ 2 + h + eps) <= 0.01 / eps).
  { unfold Rdiv. apply Rmult_le_compat_l; [lra |].
    apply Rinv_le_contravar; lra. }
  split; [lra |]. intros ->. replace (0 ^ 2 + 0 + eps) with eps by ring.
  reflexivity.
Qed.

Lemma regularised_rhs_bounded_witness :
  let y := [[0; 2]; [1; 1]; [0; 0]] in
  0 < GeorgeZhang_v1_1.eps /\ shape2 y 3 2 /\
  (forall j, (j < 2)%nat -> 0 <= entry y 0 j) /\
  exists out,
    GeorgeZhang_v1_1.ode_system [0; 2] y = Ok out /\
    forall j, (j < 2)%nat ->
      - (0.01 / GeorgeZhang_v1_1.eps) <= entry out 2 j < 0 /\
      (entry y 0 j = 0 -> entry out 2 j = - (0.01 / GeorgeZhang_v1_1.eps)).
Proof.
  assert (He : 0 < GeorgeZhang_v1_1.eps) by (unfold GeorgeZhang_v1_1.eps; lra).
  assert (Hs : shape2 [[0; 2]; [1; 1]; [0; 0]] 3 2)
    by (apply shape2_of_rows; reflexivity).
  assert (Hh : forall j, (j < 2)%nat -> 0 <= entry [[0; 2]; [1; 1]; [0; 0]] 0 j).
  { intros j Hj. destruct j as [| [| j]]; [unfold entry; simpl; lra .. | lia]. }
  split; [exact He | split; [exact Hs | split; [exact Hh |]]].
  exact (regularised_rhs_bounded GeorgeZhang_v1_1.eps [0; 2] _ 2%nat He Hs Hh).
Defined.

(** X2.  On a mesh of nonnegative abscissae the linear guess can be fed to
    the regularised right-hand side: [ode_system] returns rows of ones, of
    zeros and of -0.01 / (x^2 + x + eps). *)
Theorem rhs_defined_on_linear_guess :
  forall (eps : R) (x : array),
    0 < eps ->
    (forall j, (j < length x)%nat -> 0 <= nth j x 0) ->
    exists y out,
      Bvp.linear_y_init x = Ok y /\
      Bvp.ode_system eps x y = Ok out /\
      shape2 out 3 (length x) /\
      forall j, (j < length x)%nat ->
        entry out 0 j = 1 /\
        entry out 1 j = 0 /\
        entry out 2 j = - (0.01 / (nth j x 0 ^ 2 + nth j x 0 + eps)).
Proof.
  intros eps x He Hx.
  set (y := [x; repeat 1.0 (length x); repeat 0.0 (length x)]).
  assert (Hs : shape2 y 3 (length x))
    by (apply shape2_of_rows; auto using repeat_length).
  destruct (ode_system_entries eps x y (length x) Hs) as (out & E & So & V).
  { intros j Hj. unfold y. rewrite entry_row0. specialize (Hx j Hj). nra. }
  exists y, out. split; [apply linear_y_init_rows |].
  split; [exact E | split; [exact So |]].
  intros j Hj. destruct (V j Hj) as (-> & -> & ->).
  unfold y. rewrite entry_row0, entry_row1, entry_row2.
  rewrite !repeat_nth by exact Hj. repeat split; lra.
Qed.

Lemma rhs_defined_on_linear_guess_witness :
  0 < AdamKicman_v2.eps /\
  (forall j, (j < length [0; 25; 50])%nat -> 0 <= nth j [0; 25; 50] 0) /\
  exists y out,
    Bvp.linear_y_init [0; 25; 50] = Ok y /\
    Bvp.ode_system AdamKicman_v2.eps [0; 25; 50] y = Ok out /\
    shape2 out 3 (length [0; 25; 50]) /\
    forall j, (j < length [0; 25; 50])%nat ->
      entry out 0 j = 1 /\
      entry out 1 j = 0 /\
      entry out 2 j
      = - (0.01 / (nth j [0; 25; 50] 0 ^ 2 + nth j [0; 25; 50] 0
                   + AdamKicman_v2.eps)).
Proof.
  assert (He : 0 < AdamKicman_v2.eps) by (unfold AdamKicman_v2.eps; lra).
  assert (Hx : forall j, (j < length [0; 25; 50])%nat ->
                 0 <= nth j [0; 25; 50] 0).
  { intros j Hj. destruct j as [| [| [| j]]]; simpl in *; try lra; lia. }
  split; [exact He | split; [exact Hx |]].
  exact (rhs_defined_on_linear_guess AdamKicman_v2.eps [0; 25; 50] He Hx).
Defined.

(** X3.  For L >= 1 and a mesh of at least two increasing points in [0, L],
    the shape-aware guess can be fed to the regularised right-hand side: its
    third derivative is -0.01 / (h^2 + h + eps) with h = x - (x/L)^3 and
    lies in [-0.01/eps, 0). *)
Theorem rhs_defined_on_shape_aware_guess :
  forall (eps L : R) (x : array),
    0 < eps -> 1 <= L ->
    strictly_increasing x -> (2 <= length x)%nat ->
    (forall j, (j < length x)%nat -> 0 <= nth j x 0 <= L) ->
    exists y out,
      AdamKicman_v2.shape_y_init L x = Ok y /\
      Bvp.ode_system eps x y = Ok out /\
      shape2 out 3 (length x) /\
      forall j, (j < length x)%nat ->
        let h := nth j x 0 - (nth j x 0 / L) ^ 3 in
        entry out 0 j = entry y 1 j /\
        entry out 1 j = entry y 2 j /\
        entry out 2 j = - (0.01 / (h ^ 2 + h + eps)) /\
        - (0.01 / eps) <= entry out 2 j < 0.
Proof.
  intros eps L x He HL Hinc Hn Hx.
  destruct (shape_y_init_rows L x) as (_ & _ & E); [lra | assumption .. |].
  set (h := map (fun a => a - (a / L) ^ 3) x) in *.
  set (g := map (finite_difference h x) (seq 0 (length x))) in *.
  set (g2 := map (finite_difference g x) (seq 0 (length x))) in *.
  assert (Hs : shape2 [h; g; g2] 3 (length x)).
  { apply shape2_of_rows; unfold h, g, g2;
      rewrite ?length_map, ?length_seq; reflexivity. }
  assert (Hh : forall j, (j < length x)%nat ->
             entry [h; g; g2] 0 j = nth j x 0 - (nth j x 0 / L) ^ 3).
  { intros j Hj. rewrite entry_row0. unfold h.
    now rewrite (nth_map_in _ x 0 j) by exact Hj. }
  assert (Hpos : forall j, (j < length x)%nat -> 0 <= entry [h; g; g2] 0 j).
  { intros j Hj. rewrite Hh by exact Hj. apply cubic_guess_nonneg; auto. }
  destruct (ode_system_entries eps x [h; g; g2] (length x) Hs)
    as (out & Eo & So & V).
  { intros j Hj. specialize (Hpos j Hj). nra. }
  exists [h; g; g2], out. split; [exact E |].
  split; [exact Eo | split; [exact So |]].
  intros j Hj. cbv zeta. destruct (V j Hj) as (V0 & V1 & V2).
  specialize (Hpos j Hj). rewrite <- (Hh j Hj).
  set (hj := entry [h; g; g2] 0 j) in *.
  split; [exact V0 | split; [exact V1 | split; [exact V2 |]]].
  rewrite V2.
  assert (Hd : eps <= hj ^ 2 + hj + eps) by nra.
  assert (P : 0 < 0.01 / (hj ^ 2 + hj + eps)) by (apply Rdiv_lt_0_compat; lra).
  assert (B : 0.01 / (hj ^ 2 + hj + eps) <= 0.01 / eps).
  { unfold Rdiv. apply Rmult_le_compat_l; [lra |].
    apply Rinv_le_contravar; lra. }
  lra.
Qed.

Lemma rhs_defined_on_shape_aware_guess_witness :
  0 < AdamKicman_v2.eps /\ 1 <= 20 /\
  strictly_increasing [0; 10; 20] /\ (2 <= length [0; 10; 20])%nat /\
  (forall j, (j < length [0; 10; 20])%nat -> 0 <= nth j [0; 10; 20] 0 <= 20) /\
  exists y out,
    AdamKicman_v2.shape_y_init 20 [0; 10; 20] = Ok y /\
    Bvp.ode_system AdamKicman_v2.eps [0; 10; 20] y = Ok out /\
    shape2 out 3 (length [0; 10; 20]) /\
    forall j, (j < length [0; 10; 20])%nat ->
      let h := nth j [0; 10; 20] 0 - (nth j [0; 10; 20] 0 / 20) ^ 3 in
      entry out 0 j = entry y 1 j /\
      entry out 1 j = entry y 2 j /\
      entry out 2 j = - (0.01 / (h ^ 2 + h + AdamKicman_v2.eps)) /\
      - (0.01 / AdamKicman_v2.eps) <= entry out 2 j < 0.
Proof.
  assert (He : 0 < AdamKicman_v2.eps) by (unfold AdamKicman_v2.eps; lra).
  assert (HL : 1 <= 20) by lra.
  assert (Hinc : strictly_increasing [0; 10; 20]).
  { intros i Hi. destruct i as [| [| i]]; simpl in *; try lra; lia. }
  assert (Hn : (2 <= length [0; 10; 20])%nat) by (simpl; lia).
  assert (Hx : forall j, (j < length [0; 10; 20])%nat ->
                 0 <= nth j [0; 10; 20] 0 <= 20).
  { intros j Hj. destruct j as [| [| [| j]]]; simpl in *; try lra; lia. }
  split; [exact He | split; [exact HL | split; [exact Hinc |
    split; [exact Hn | split; [exact Hx |]]]]].
  exact (rhs_defined_on_shape_aware_guess
           AdamKicman_v2.eps 20 [0; 10; 20] He HL Hinc Hn Hx).
Defined.

End RightHandSideBounds.


(** ** Further properties of the guesses *)

Section GuessEdges.
Import Np.

(** X4.  The shape-aware guess is refused on degenerate input: on a mesh of
    fewer than two points [np.gradient] raises IndexError (it reads the first
    of the spacings and there is none), and with a truncation length of zero
    on a non-empty mesh the division x/x_max is a division by zero. *)
Theorem shape_y_init_rejects_degenerate_input :
  (forall (L : R) (x : array),
     L <> 0 -> (length x < 2)%nat ->
     AdamKicman_v2.shape_y_init L x = Err IndexError) /\
  (forall x : array,
     x <> [] -> AdamKicman_v2.shape_y_init 0 x = Err NonFinite).
Proof.
  split.
  - intros L x HL Hn. unfold AdamKicman_v2.shape_y_init.
    rewrite h_guess_ok by exact HL. cbn [bind].
    set (h := map (fun a => a - (a / L) ^ 3) x).
    assert (Lh : length h = length x) by (unfold h; apply length_map).
    unfold zeros. cbn [repeat].
    rewrite set_row0 by (now rewrite repeat_length). cbn [bind].
    unfold gradient. rewrite Lh, Nat.eqb_refl. cbn [negb].
    unfold diff. replace (length x - 1)%nat with 0%nat by lia.
    reflexivity.
  - intros x Hx. destruct x as [| a x]; [congruence |].
    unfold AdamKicman_v2.shape_y_init, AdamKicman_v2.h_guess, divs.
    cbn [mapM]. rewrite fdiv_zero. reflexivity.
Qed.

Lemma shape_y_init_rejects_degenerate_input_witness :
  20 <> 0 /\ (length [0] < 2)%nat /\
  AdamKicman_v2.shape_y_init 20 [0] = Err IndexError.
Proof.
  assert (HL : 20 <> 0) by lra.
  assert (Hn : (length [0] < 2)%nat) by (simpl; lia).
  split; [exact HL | split; [exact Hn |]].
  exact (proj1 shape_y_init_rejects_degenerate_input 20 [0] HL Hn).
Defined.

End GuessEdges.

Section InteriorAccuracy.
Import Np.

(** Inside a mesh of spacing [d] the finite difference is the central
    difference quotient. *)
Lemma finite_difference_central (f x : array) (i : nat) (d : R) :
  d <> 0 -> (0 < i)%nat -> (i + 1 < length f)%nat ->
  nth i x 0 - nth (i - 1) x 0 = d ->
  nth (i + 1) x 0 - nth i x 0 = d ->
  finite_difference f x i = (nth (i + 1) f 0 - nth (i - 1) f 0) / (2 * d).
Proof.
  intros Hd H0 H1 Hs He. rewrite finite_difference_interior by assumption.
  cbv zeta. rewrite Hs, He. field. split; [exact Hd | lra].
Qed.

Lemma linspace0_step (L : R) (n i : nat) :
  (2 <= n)%nat -> (S i < n)%nat ->
  nth (S i) (linspace 0 L n) 0 - nth i (linspace 0 L n) 0 = L / INR (n - 1).
Proof.
  intros Hn Hi. rewrite !linspace0_nth by lia. rewrite S_INR. ring.
Qed.

(** X5.  On the uniform mesh of n >= 3 points over [0, L] with spacing d,
    the slope row of the shape-aware guess at an inner point is the exact
    slope 1 - 3 x^2 / L^3 of the cubic minus d^2 / L^3, and two or more
    points away from both ends its curvature row is the exact curvature
    - 6 x / L^3. *)
Theorem shape_aware_guess_interior :
  forall (L : R) (n : nat),
    0 < L -> (3 <= n)%nat ->
    let d := L / INR (n - 1) in
    let x := linspace 0 L n in
    exists y,
      AdamKicman_v2.shape_y_init L x = Ok y /\
      (forall i, (0 < i)%nat -> (i + 1 < n)%nat ->
         entry y 1 i = 1 - 3 * nth i x 0 ^ 2 / L ^ 3 - d ^ 2 / L ^ 3) /\
      (forall i, (2 <= i)%nat -> (i + 2 < n)%nat ->
         entry y 2 i = - (6 * nth i x 0 / L ^ 3)).
Proof.
  intros L n HL Hn d x.
  assert (Lx : length x = n) by apply linspace_length.
  destruct (shape_y_init_rows L x) as (_ & _ & E).
  { lra. } { now apply linspace_strictly_increasing. } { lia. }
  set (h := map (fun a => a - (a / L) ^ 3) x) in *.
  set (g := map (finite_difference h x) (seq 0 (length x))) in *.
  set (g2 := map (finite_difference g x) (seq 0 (length x))) in *.
  assert (Lh : length h = n) by (unfold h; now rewrite length_map).
  assert (Lg : length g = n) by (unfold g; now rewrite length_map, length_seq).
  assert (Hd : 0 < d) by (apply spacing_pos; [exact HL | lia]).
  assert (Hh : forall j, (j < n)%nat ->
             nth j h 0 = nth j x 0 - (nth j x 0 / L) ^ 3).
  { intros j Hj. unfold h. now rewrite (nth_map_in _ x 0 j) by lia. }
  assert (Hnext : forall i, (S i < n)%nat -> nth (S i) x 0 = nth i x 0 + d).
  { intros i Hi. pose proof (linspace0_step L n i ltac:(lia) Hi) as St.
    fold x in St. fold d in St. lra. }
  assert (Hg : forall i, (0 < i)%nat -> (i + 1 < n)%nat ->
             nth i g 0 = 1 - 3 * nth i x 0 ^ 2 / L ^ 3 - d ^ 2 / L ^ 3).
  { intros i H0 H1. unfold g. rewrite nth_map_seq by lia.
    assert (Xn : nth (i + 1) x 0 = nth i x 0 + d).
    { replace (i + 1)%nat with (S i) by lia. apply Hnext. lia. }
    assert (Xp : nth (i - 1) x 0 = nth i x 0 - d).
    { pose proof (Hnext (i - 1)%nat ltac:(lia)) as St.
      replace (S (i - 1)) with i in St by lia. lra. }
    rewrite (finite_difference_central h x i d); try lra; try lia.
    rewrite !Hh by lia. rewrite Xn, Xp. field. lra. }
  exists [h; g; g2]. split; [exact E |]. split.
  - intros i H0 H1. rewrite entry_row1. now apply Hg.
  - intros i H2 H3. rewrite entry_row2. unfold g2.
    rewrite nth_map_seq by lia.
    assert (Xn : nth (i + 1) x 0 = nth i x 0 + d).
    { replace (i + 1)%nat with (S i) by lia. apply Hnext. lia. }
    assert (Xp : nth (i - 1) x 0 = nth i x 0 - d).
    { pose proof (Hnext (i - 1)%nat ltac:(lia)) as St.
      replace (S (i - 1)) with i in St by lia. lra. }
    rewrite (finite_difference_central g x i d); try lra; try lia.
    rewrite !Hg by lia. rewrite Xn, Xp. field. lra.
Qed.

Lemma shape_aware_guess_interior_witness :
  0 < 20 /\ (3 <= 5)%nat /\
  let d := 20 / INR (5 - 1) in
  let x := linspace 0 20 5 in
  exists y,
    AdamKicman_v2.shape_y_init 20 x = Ok y /\
    (forall i, (0 < i)%nat -> (i + 1 < 5)%nat ->
       entry y 1 i = 1 - 3 * nth i x 0 ^ 2 / 20 ^ 3 - d ^ 2 / 20 ^ 3) /\
    (forall i, (2 <= i)%nat -> (i + 2 < 5)%nat ->
       entry y 2 i = - (6 * nth i x 0 / 20 ^ 3)).
Proof.
  assert (HL : 0 < 20) by lra.
  assert (Hn : (3 <= 5)%nat) by lia.
  split; [exact HL | split; [exact Hn |]].
  exact (shape_aware_guess_interior 20 5%nat HL Hn).
Defined.

End InteriorAccuracy.

Section StabilityLoop.
Import Np.

Lemma N_array_is_arange :
  AdamKicman_v2.N_array = arange 100 (10 * 1010 + 1000) 1000.
Proof. vm_compute. reflexivity. Qed.

(** X6.  Every mesh size N of the stability loop,
    [np.arange(100, 10100+1000, 1000)], lies between 100 and 10100, gives a
    strictly increasing mesh, and its guess is built without error as a
    3-by-N array with a nonnegative first row. *)
Theorem stability_loop_guesses :
  forall N : nat,
    In N (arange 100 (10 * 1010 + 1000) 1000) ->
    (100 <= N <= 10 * 1010)%nat /\
    strictly_increasing (linspace 0 AdamKicman_v2.x_max N) /\
    exists y,
      AdamKicman_v2.y_init_for N = Ok y /\
      shape2 y 3 N /\
      forall j, (j < N)%nat -> 0 <= entry y 0 j.
Proof.
  intros N HN. rewrite <- N_array_is_arange in HN.
  unfold AdamKicman_v2.N_array in HN. apply in_map_iff in HN.
  destruct HN as (i & <- & Hi). apply in_seq in Hi.
  set (N := (100 + 1000 * i)%nat).
  assert (HN : (100 <= N <= 10 * 1010)%nat) by (unfold N; lia).
  split; [exact HN |].
  assert (Hx : 0 < AdamKicman_v2.x_max) by (unfold AdamKicman_v2.x_max; lra).
  pose proof (linspace_strictly_increasing AdamKicman_v2.x_max N Hx) as Hinc.
  split; [exact Hinc |].
  set (x := linspace 0 AdamKicman_v2.x_max N) in *.
  assert (Lx : length x = N) by apply linspace_length.
  destruct (shape_y_init_rows AdamKicman_v2.x_max x) as (_ & _ & E);
    [lra | exact Hinc | lia |].
  eexists. split; [exact E |]. split.
  - apply shape2_of_rows; rewrite ?length_map, ?length_seq; auto.
  - intros j Hj. rewrite entry_row0.
    rewrite (nth_map_in _ x 0 j) by lia.
    apply cubic_guess_nonneg; [unfold AdamKicman_v2.x_max; lra |].
    apply linspace_within; [lra | exact Hj].
Qed.

Lemma stability_loop_guesses_witness :
  In 1100%nat (arange 100 (10 * 1010 + 1000) 1000) /\
  (100 <= 1100 <= 10 * 1010)%nat /\
  strictly_increasing (linspace 0 AdamKicman_v2.x_max 1100) /\
  exists y,
    AdamKicman_v2.y_init_for 1100 = Ok y /\
    shape2 y 3 1100 /\
    forall j, (j < 1100)%nat -> 0 <= entry y 0 j.
Proof.
  assert (H : In 1100%nat (arange 100 (10 * 1010 + 1000) 1000)).
  { rewrite <- N_array_is_arange. unfold AdamKicman_v2.N_array.
    apply in_map_iff. exists 1%nat. split; [reflexivity |].
    apply in_seq. lia. }
  split; [exact H |]. exact (stability_loop_guesses 1100%nat H).
Defined.

End StabilityLoop.


(** ** The scripts without regularisation *)

Section Unregularised.
Import Np.

Lemma quadratic_roots (h : R) : h ^ 2 + h = 0 <-> h = 0 \/ h = -1.
Proof.
  split.
  - intros H. assert (E : h * (h + 1) = 0) by lra.
    apply Rmult_integral in E. destruct E; [left | right]; lra.
  - intros [-> | ->]; ring.
Qed.

Lemma fdiv_err_iff (a b : R) : fdiv a b = Err NonFinite <-> b = 0.
Proof.
  unfold fdiv. destruct (Req_dec_T b 0) as [E | N].
  - split; auto.
  - split; [discriminate | contradiction].
Qed.

Lemma adam_kicman_v1_column (xs : array) (h hp hpp : R) :
  AdamKicman_v1.ode_system xs [[h]; [hp]; [hpp]]
  = r <- fdiv (-0.01) (h ^ 2 + h) ;; Ok [[hp]; [hpp]; [r]].
Proof.
  unfold AdamKicman_v1.ode_system, getitem, sdiv. cbn [nth_error bind map mapM].
  destruct (fdiv (-0.01) (h ^ 2 + h)) as [r | e]; reflexivity.
Qed.

(** X8.  [ode_system] of [Vatsal_SolutionChatGPT.py] fails with ValueError
    when the state does not unpack into three values, divides by zero exactly
    at h = 0 and h = -1, and otherwise returns
    [h', h'', -0.01 / (h^2 + h)]. *)
Theorem vatsal_rhs_domain :
  forall (x : R) (y : array),
    (length y <> 3%nat -> Vatsal.ode_system x y = Err ValueError) /\
    (forall h hp hpp, y = [h; hp; hpp] ->
       (Vatsal.ode_system x y = Err NonFinite <-> h = 0 \/ h = -1) /\
       (h <> 0 -> h <> -1 ->
        Vatsal.ode_system x y = Ok [hp; hpp; - (0.01 / (h ^ 2 + h))])).
Proof.
  intros x y. split.
  - intros Hn. destruct y as [| a [| b [| c [| d y]]]]; simpl in Hn;
      try reflexivity. lia.
  - intros h hp hpp ->. unfold Vatsal.ode_system, fdiv.
    destruct (Req_dec_T (h ^ 2 + h) 0) as [E | N]; cbn [bind].
    + split; [split; [intros _; now apply quadratic_roots | reflexivity] |].
      intros H0 H1. apply quadratic_roots in E. destruct E; contradiction.
    + split; [split; [discriminate |] |].
      * intros Hr. apply quadratic_roots in Hr. contradiction.
      * intros _ _. do 4 f_equal.
        replace (-0.01) with (- (0.01)) by lra. field. exact N.
Qed.

Lemma vatsal_rhs_domain_witness :
  length [1; 2] <> 3%nat /\ Vatsal.ode_system 0 [1; 2] = Err ValueError.
Proof.
  assert (H : length [1; 2] <> 3%nat) by (simpl; lia).
  split; [exact H |]. exact (proj1 (vatsal_rhs_domain 0 [1; 2]) H).
Defined.

(** X9.  Where h^2 + h > 0 the regularised third derivative is, in exact
    arithmetic, the unregularised one of [adam-kicman-v1.py] times
    (h^2 + h) / (h^2 + h + eps), and the two differ by the unregularised one
    times eps / (h^2 + h + eps).  In rounded arithmetic, whatever the
    monotone rounding that leaves 0 and its own values unchanged, where the
    computed h^2 + h is positive the regularised value lies between the
    unregularised one and 0, so that regularising never increases the
    magnitude. *)
Theorem regularisation_perturbs_rhs :
  (forall (eps : R) (xs : array) (h hp hpp : R),
     0 < eps -> 0 < h ^ 2 + h ->
     exists r r0,
       Bvp.ode_system eps xs [[h]; [hp]; [hpp]] = Ok [[hp]; [hpp]; [r]] /\
       AdamKicman_v1.ode_system xs [[h]; [hp]; [hpp]]
       = Ok [[hp]; [hpp]; [r0]] /\
       r = r0 * ((h ^ 2 + h) / (h ^ 2 + h + eps)) /\
       r - r0 = - r0 * (eps / (h ^ 2 + h + eps))) /\
  (forall (rnd : R -> R) (eps : R) (xs : array) (h hp hpp : R),
     Rounded.monotone rnd -> rnd 0 = 0 ->
     (forall v, rnd (rnd v) = rnd v) ->
     0 <= eps -> 0 < Rounded.add rnd (Rounded.mul rnd h h) h ->
     exists r r0,
       Rounded.ode_system rnd eps xs [[h]; [hp]; [hpp]]
       = Ok [[hp]; [hpp]; [r]] /\
       Rounded.ode_system_unregularised rnd xs [[h]; [hp]; [hpp]]
       = Ok [[hp]; [hpp]; [r0]] /\
       r0 <= r <= 0 /\
       Rabs r <= Rabs r0).
Proof.
  split.
  - intros eps xs h hp hpp He Hs.
    set (s := h ^ 2 + h) in *.
    exists (-0.01 / (s + eps)), (-0.01 / s).
    split; [| split].
    + rewrite ode_system_rows; [reflexivity | reflexivity | reflexivity |].
      constructor; [fold s; lra | constructor].
    + rewrite adam_kicman_v1_column. fold s. rewrite fdiv_ok by lra.
      reflexivity.
    + replace (-0.01) with (- (0.01)) by lra. split; field; lra.
  - intros rnd eps xs h hp hpp Hm H0 Hi He Hs.
    set (s := Rounded.add rnd (Rounded.mul rnd h h) h) in *.
    assert (Ds : s <= Rounded.add rnd s eps).
    { apply Rle_trans with (rnd s); [| apply Hm; lra].
      unfold s, Rounded.add. rewrite Hi. lra. }
    pose proof (rounded_constant_nonpositive rnd Hm H0) as Hk.
    exists (rnd (rnd (-0.01) / Rounded.add rnd s eps)),
           (rnd (rnd (-0.01) / s)).
    split; [apply rounded_ode_system_column; fold s; lra |].
    split; [apply rounded_unregularised_column; fold s; lra |].
    apply rounded_quotient_damped; auto; lra.
Qed.

Lemma regularisation_perturbs_rhs_witness :
  (0 < AdamKicman_v2.eps /\ 0 < 1 ^ 2 + 1 /\
   exists r r0,
     Bvp.ode_system AdamKicman_v2.eps [0] [[1]; [1]; [0]]
     = Ok [[1]; [0]; [r]] /\
     AdamKicman_v1.ode_system [0] [[1]; [1]; [0]] = Ok [[1]; [0]; [r0]] /\
     r = r0 * ((1 ^ 2 + 1) / (1 ^ 2 + 1 + AdamKicman_v2.eps)) /\
     r - r0 = - r0 * (AdamKicman_v2.eps / (1 ^ 2 + 1 + AdamKicman_v2.eps))) /\
  (Rounded.monotone Rounded.round_down /\ Rounded.round_down 0 = 0 /\
   (forall v,
      Rounded.round_down (Rounded.round_down v) = Rounded.round_down v) /\
   0 <= 1 /\
   0 < Rounded.add Rounded.round_down
         (Rounded.mul Rounded.round_down 3 3) 3 /\
   exists r r0,
     Rounded.ode_system Rounded.round_down 1 [0] [[3]; [1]; [0]]
     = Ok [[1]; [0]; [r]] /\
     Rounded.ode_system_unregularised Rounded.round_down [0] [[3]; [1]; [0]]
     = Ok [[1]; [0]; [r0]] /\
     r0 <= r <= 0 /\
     Rabs r <= Rabs r0).
Proof.
  split.
  - assert (He : 0 < AdamKicman_v2.eps) by (unfold AdamKicman_v2.eps; lra).
    assert (Hs : 0 < 1 ^ 2 + 1) by lra.
    split; [exact He | split; [exact Hs |]].
    exact (proj1 regularisation_perturbs_rhs
             AdamKicman_v2.eps [0] 1 1 0 He Hs).
  - assert (Hm : Rounded.monotone Rounded.round_down)
      by exact round_down_monotone.
    assert (H0 : Rounded.round_down 0 = 0) by exact (round_down_IZR 0).
    assert (Hi : forall v,
               Rounded.round_down (Rounded.round_down v)
               = Rounded.round_down v) by exact round_down_idempotent.
    assert (He : 0 <= 1) by lra.
    assert (Hs : 0 < Rounded.add Rounded.round_down
                       (Rounded.mul Rounded.round_down 3 3) 3).
    { unfold Rounded.add, Rounded.mul.
      replace (3 * 3) with (IZR 9) by lra. rewrite round_down_IZR.
      replace (IZR 9 + 3) with (IZR 12) by lra. rewrite round_down_IZR. lra. }
    split; [exact Hm | split; [exact H0 | split; [exact Hi |
      split; [exact He | split; [exact Hs |]]]]].
    exact (proj2 regularisation_perturbs_rhs
             Rounded.round_down 1 [0] 3 1 0 Hm H0 Hi He Hs).
Defined.

End Unregularised.

(** ** The first-order script *)

Section FirstOrder.
Import Np.

(** X10.  In [George-Zhang-v1.0.py], [h_prime] and [h_double_prime] divide
    by zero exactly at h = 0 and h = -1; [ode_rhs] is [h_prime] whatever x;
    and for h > 0 both are defined and negative, with
    -0.01/h < h_prime(h) < 0. *)
Theorem h_prime_domain_and_sign :
  forall h : R,
    (GeorgeZhang_v1_0.h_prime h = Err NonFinite <-> h = 0 \/ h = -1) /\
    (GeorgeZhang_v1_0.h_double_prime h = Err NonFinite <-> h = 0 \/ h = -1) /\
    (forall x, GeorgeZhang_v1_0.ode_rhs x h = GeorgeZhang_v1_0.h_prime h) /\
    (0 < h ->
     exists p q,
       GeorgeZhang_v1_0.h_prime h = Ok p /\
       GeorgeZhang_v1_0.h_double_prime h = Ok q /\
       - (0.01 / h) < p < 0 /\ q < 0).
Proof.
  intros h. split; [| split; [| split]].
  - unfold GeorgeZhang_v1_0.h_prime. rewrite fdiv_err_iff.
    apply quadratic_roots.
  - unfold GeorgeZhang_v1_0.h_double_prime. rewrite fdiv_err_iff.
    rewrite <- quadratic_roots. split.
    + intros E. destruct (Req_dec_T (h ^ 2 + h) 0) as [Z | N]; [exact Z |].
      exfalso. revert E. now apply pow_nonzero.
    + intros ->. ring.
  - reflexivity.
  - intros Hh. assert (Hs : 0 < h ^ 2 + h) by nra.
    exists (-0.01 / (h ^ 2 + h)), (-0.0001 * (2 * h + 1) / (h ^ 2 + h) ^ 3).
    split; [apply h_prime_ok; lra |].
    split; [apply h_double_prime_ok; lra |].
    assert (P : 0 < 0.01 / (h ^ 2 + h)) by (apply Rdiv_lt_0_compat; lra).
    assert (E0 : -0.01 / (h ^ 2 + h) = - (0.01 / (h ^ 2 + h)))
      by (replace (-0.01) with (- (0.01)) by lra; unfold Rdiv; ring).
    assert (B : 0.01 / (h ^ 2 + h) < 0.01 / h).
    { unfold Rdiv. apply Rmult_lt_compat_l; [lra |].
      apply Rinv_lt_contravar; [apply Rmult_lt_0_compat; lra | nra]. }
    split; [rewrite E0; lra |].
    assert (P3 : 0 < (h ^ 2 + h) ^ 3) by (apply pow_lt; exact Hs).
    assert (Q : 0 < 0.0001 * (2 * h + 1) / (h ^ 2 + h) ^ 3).
    { apply Rdiv_lt_0_compat; [nra | exact P3]. }
    replace (-0.0001 * (2 * h + 1) / (h ^ 2 + h) ^ 3)
      with (- (0.0001 * (2 * h + 1) / (h ^ 2 + h) ^ 3)); [lra |].
    replace (-0.0001) with (- (0.0001)) by lra. field. lra.
Qed.

Lemma h_prime_domain_and_sign_witness :
  0 < 1 /\
  exists p q,
    GeorgeZhang_v1_0.h_prime 1 = Ok p /\
    GeorgeZhang_v1_0.h_double_prime 1 = Ok q /\
    - (0.01 / 1) < p < 0 /\ q < 0.
Proof.
  assert (H : 0 < 1) by lra.
  split; [exact H |].
  exact (proj2 (proj2 (proj2 (h_prime_domain_and_sign 1))) H).
Defined.

End FirstOrder.


(** ** The Cox-Voinov profile: domain, consistency, monotonicity *)

Section CoxVoinovDomain.
Import Np.

Lemma x_star_pos : 0 < x_star.
Proof. apply exp_pos. Qed.

Lemma ln_e_times (x : R) : 0 < x -> ln (e * x) = 1 + ln x.
Proof.
  intros Hx. unfold e. rewrite ln_mult by (try apply exp_pos; exact Hx).
  now rewrite ln_exp.
Qed.

Lemma ln_x_star : ln x_star = - (1 / 0.03) - 1.
Proof. unfold x_star. apply ln_exp. Qed.

Lemma theta_cubed_sign (x : R) :
  0 < x ->
  (x_star < x <-> 0 < 1 + 0.03 * ln (e * x)) /\
  (x = x_star <-> 1 + 0.03 * ln (e * x) = 0) /\
  (x < x_star <-> 1 + 0.03 * ln (e * x) < 0).
Proof.
  intros Hx. rewrite ln_e_times by exact Hx.
  pose proof x_star_pos as Hs. pose proof ln_x_star as Hl.
  assert (T : 0.03 * (1 / 0.03) = 1) by (field; lra).
  assert (Up : x_star < x -> ln x_star < ln x) by (now apply ln_increasing).
  assert (Dn : x < x_star -> ln x < ln x_star) by (now apply ln_increasing).
  assert (Eq : x = x_star -> ln x = ln x_star) by (now intros ->).
  destruct (Rtotal_order x x_star) as [Lt | [E | Gt]].
  - specialize (Dn Lt). repeat split; intros; try lra.
  - specialize (Eq E). repeat split; intros; try lra.
  - specialize (Up Gt). repeat split; intros; try lra.
Qed.

Lemma theta_cubed_err (x : R) :
  x <= 0 -> CoxVoinov.theta_cubed x = Err NonFinite.
Proof.
  intros Hx. unfold CoxVoinov.theta_cubed, log.
  destruct (Rlt_dec 0 (e * x)) as [P | _]; [| reflexivity].
  exfalso. pose proof e_pos as He. nra.
Qed.

(** X11.  The domains of the Cox-Voinov functions: [theta_cubed] fails
    exactly for x <= 0, [theta] exactly for x < x_star and [dtheta_dx]
    exactly for x <= x_star, where x_star = exp(-1/0.03 - 1) is the point at
    which theta_cubed vanishes. *)
Theorem cox_voinov_domain :
  forall x : R,
    (CoxVoinov.theta_cubed x = Err NonFinite <-> x <= 0) /\
    (CoxVoinov.theta x = Err NonFinite <-> x < x_star) /\
    (CoxVoinov.dtheta_dx x = Err NonFinite <-> x <= x_star).
Proof.
  intros x. pose proof x_star_pos as Hs.
  destruct (Rle_or_lt x 0) as [Hx | Hx].
  - pose proof (theta_cubed_err x Hx) as E.
    unfold CoxVoinov.dtheta_dx, CoxVoinov.theta. rewrite E. cbn [bind].
    repeat split; intros; try reflexivity; lra.
  - destruct (theta_cubed_sign x Hx) as (Sp & Sz & Sn).
    pose proof (theta_cubed_ok x Hx) as E.
    split; [rewrite E; split; [discriminate | lra] |].
    unfold CoxVoinov.dtheta_dx, CoxVoinov.theta. rewrite E. cbn [bind].
    unfold power.
    destruct (Rlt_dec 0 (1 + 0.03 * ln (e * x))) as [P | NP].
    + cbn [bind]. apply Sp in P.
      pose proof (Rpower_pos (1 + 0.03 * ln (e * x)) (1 / 3)) as Hp.
      rewrite fdiv_ok.
      * split; (split; [discriminate | lra]).
      * apply Rgt_not_eq. apply Rmult_lt_0_compat; [exact Hx |].
        now apply pow_lt.
    + destruct (Req_dec_T (1 + 0.03 * ln (e * x)) 0) as [Z | NZ].
      * cbn [bind]. apply Sz in Z.
        replace (x * 0 ^ 2) with 0 by ring. rewrite fdiv_zero.
        split; [split; [discriminate | lra] | split; [lra | reflexivity]].
      * cbn [bind].
        assert (N : 1 + 0.03 * ln (e * x) < 0) by lra. apply Sn in N.
        split; (split; [lra | reflexivity]).
Qed.

(** X12.  For x >= x_star, [theta] is the nonnegative cube root of
    [theta_cubed]: theta(x)^3 = theta_cubed(x) = 1.03 + 0.03 ln x. *)
Theorem theta_is_cube_root_of_theta_cubed :
  forall x : R,
    x_star <= x ->
    exists t th,
      CoxVoinov.theta_cubed x = Ok t /\
      t = 1.03 + 0.03 * ln x /\
      CoxVoinov.theta x = Ok th /\
      0 <= th /\ th ^ 3 = t.
Proof.
  intros x Hx. pose proof x_star_pos as Hs.
  assert (Hx0 : 0 < x) by lra.
  destruct (theta_cubed_sign x Hx0) as (Sp & Sz & _).
  pose proof (theta_cubed_ok x Hx0) as E.
  assert (Et : 1 + 0.03 * ln (e * x) = 1.03 + 0.03 * ln x)
    by (rewrite ln_e_times by exact Hx0; lra).
  destruct Hx as [Hlt | Heq].
  - apply Sp in Hlt.
    exists (1 + 0.03 * ln (e * x)), (Rpower (1 + 0.03 * ln (e * x)) (1 / 3)).
    split; [exact E | split; [exact Et |]].
    split; [now apply theta_ok |].
    split; [left; apply Rpower_pos | now apply cube_of_cube_root].
  - symmetry in Heq. apply Sz in Heq.
    exists (1 + 0.03 * ln (e * x)), 0.
    split; [exact E | split; [exact Et |]].
    split; [| split; [lra | rewrite Heq; ring]].
    unfold CoxVoinov.theta. rewrite E. cbn [bind]. unfold power.
    rewrite Heq.
    destruct (Rlt_dec 0 0) as [P | _]; [lra |].
    destruct (Req_dec_T 0 0) as [_ | N]; [reflexivity | now elim N].
Qed.

Lemma theta_is_cube_root_of_theta_cubed_witness :
  x_star <= 1 /\
  exists t th,
    CoxVoinov.theta_cubed 1 = Ok t /\
    t = 1.03 + 0.03 * ln 1 /\
    CoxVoinov.theta 1 = Ok th /\
    0 <= th /\ th ^ 3 = t.
Proof.
  assert (H : x_star <= 1).
  { left. apply (theta_cubed_sign 1); [lra |].
    rewrite ln_e_times by lra. rewrite ln_1. lra. }
  split; [exact H |]. exact (theta_is_cube_root_of_theta_cubed 1 H).
Defined.

(** X13.  Above x_star, [theta] is positive and strictly increasing and
    [dtheta_dx] is positive and strictly decreasing. *)
Theorem cox_voinov_monotone :
  forall x y : R,
    x_star < x -> x < y ->
    exists tx ty dx dy,
      CoxVoinov.theta x = Ok tx /\ CoxVoinov.theta y = Ok ty /\
      CoxVoinov.dtheta_dx x = Ok dx /\ CoxVoinov.dtheta_dx y = Ok dy /\
      0 < tx < ty /\ 0 < dy < dx.
Proof.
  intros x y Hx Hxy. pose proof x_star_pos as Hs.
  assert (Hx0 : 0 < x) by lra. assert (Hy0 : 0 < y) by lra.
  assert (Px : 0 < 1 + 0.03 * ln (e * x)) by (apply theta_cubed_sign; lra).
  assert (Py : 0 < 1 + 0.03 * ln (e * y)) by (apply theta_cubed_sign; lra).
  assert (Hln : ln x < ln y) by (now apply ln_increasing).
  assert (Hc : 1 + 0.03 * ln (e * x) < 1 + 0.03 * ln (e * y))
    by (rewrite !ln_e_times by assumption; lra).
  set (cx := 1 + 0.03 * ln (e * x)) in *.
  set (cy := 1 + 0.03 * ln (e * y)) in *.
  pose proof (Rpower_pos cx (1 / 3)) as Tx.
  assert (Txy : Rpower cx (1 / 3) < Rpower cy (1 / 3))
    by (apply Rlt_Rpower_l; lra).
  exists (Rpower cx (1 / 3)), (Rpower cy (1 / 3)),
         (0.01 / (x * Rpower cx (1 / 3) ^ 2)),
         (0.01 / (y * Rpower cy (1 / 3) ^ 2)).
  split; [now apply theta_ok |]. split; [now apply theta_ok |].
  split; [now apply dtheta_dx_ok |]. split; [now apply dtheta_dx_ok |].
  split; [lra |].
  set (a := Rpower cx (1 / 3)) in *. set (b := Rpower cy (1 / 3)) in *.
  assert (A2 : 0 < a ^ 2) by (apply pow_lt; lra).
  assert (AB : a ^ 2 < b ^ 2) by nra.
  assert (Dx : 0 < x * a ^ 2) by (apply Rmult_lt_0_compat; lra).
  assert (Dxy : x * a ^ 2 < y * b ^ 2) by nra.
  split.
  - apply Rdiv_lt_0_compat; lra.
  - unfold Rdiv. apply Rmult_lt_compat_l; [lra |].
    apply Rinv_lt_contravar; [apply Rmult_lt_0_compat; lra | exact Dxy].
Qed.

End CoxVoinovDomain.


Section CoxVoinovGrids.
Import Np.

Lemma exp_10_large : 1000 < exp 10.
Proof.
  assert (H1 : 2 < exp 1).
  { pose proof (exp_ineq1 1 ltac:(lra)). lra. }
  assert (E2 : exp 2 = exp 1 * exp 1) by (rewrite <- exp_plus; f_equal; lra).
  assert (E4 : exp 4 = exp 2 * exp 2) by (rewrite <- exp_plus; f_equal; lra).
  assert (E8 : exp 8 = exp 4 * exp 4) by (rewrite <- exp_plus; f_equal; lra).
  assert (E10 : exp 10 = exp 8 * exp 2) by (rewrite <- exp_plus; f_equal; lra).
  assert (H2 : 4 < exp 2) by nra.
  assert (H4 : 16 < exp 4) by nra.
  assert (H8 : 256 < exp 8) by nra.
  nra.
Qed.

Lemma x_star_small : x_star < 0.001.
Proof.
  unfold x_star.
  apply Rlt_trans with (exp (Ropp 10)).
  - apply exp_increasing.
    assert (10 < 1 / 0.03) by (apply (Rmult_lt_reg_r 0.03); [lra |];
      unfold Rdiv; rewrite Rmult_assoc, Rinv_l by lra; lra).
    lra.
  - rewrite exp_Ropp. pose proof exp_10_large as H.
    replace 0.001 with (/ 1000) by lra.
    apply Rinv_lt_contravar; [| exact H].
    apply Rmult_lt_0_compat; lra.
Qed.

Lemma mapM_defined {A : Type} (f : A -> result R) (l : list A) :
  (forall a, In a l -> exists v, f a = Ok v) ->
  mapM f l = Ok (map (fun a => value (f a)) l).
Proof.
  intros H. apply mapM_ok. intros a Ha.
  destruct (H a Ha) as (v & E). rewrite E. reflexivity.
Qed.

(** Above the sign change everything is defined and positive. *)
Lemma cox_voinov_defined (x : R) :
  x_star < x ->
  exists t d,
    CoxVoinov.theta_cubed x = Ok t /\ CoxVoinov.dtheta_dx x = Ok d /\
    0 < t /\ 0 < d.
Proof.
  intros Hx. pose proof x_star_pos as Hs. assert (Hx0 : 0 < x) by lra.
  assert (P : 0 < 1 + 0.03 * ln (e * x)) by (apply theta_cubed_sign; lra).
  exists (1 + 0.03 * ln (e * x)),
         (0.01 / (x * Rpower (1 + 0.03 * ln (e * x)) (1 / 3) ^ 2)).
  split; [now apply theta_cubed_ok |]. split; [now apply dtheta_dx_ok |].
  split; [exact P |].
  apply Rdiv_lt_0_compat; [lra |].
  apply Rmult_lt_0_compat; [exact Hx0 |]. apply pow_lt, Rpower_pos.
Qed.

Lemma linspace_lower (a b : R) (n : nat) (v : R) :
  a <= b -> In v (linspace a b n) -> a <= v.
Proof.
  intros Hab Hin. destruct (In_nth _ _ 0 Hin) as (j & Hj & <-).
  rewrite linspace_length in Hj.
  destruct (le_lt_dec 2 n) as [Hn | Hn].
  - rewrite linspace_nth by assumption.
    assert (0 <= INR j * ((b - a) / INR (n - 1))).
    { apply Rmult_le_pos; [apply pos_INR |].
      apply Rmult_le_pos; [lra |]. left. apply Rinv_0_lt_compat.
      apply lt_0_INR. lia. }
    lra.
  - assert (n = 1%nat) by lia. subst n. assert (j = 0%nat) by lia. subst j.
    simpl. lra.
Qed.

Lemma logspace_lower (v : R) :
  In v CoxVoinov.x_log -> 0.001 <= v.
Proof.
  unfold CoxVoinov.x_log, logspace. intros Hin. apply in_map_iff in Hin.
  destruct Hin as (y & <- & Hy).
  apply linspace_lower in Hy; [| lra].
  assert (E : Rpower 10 (-3) = 0.001).
  { replace (-3) with (Ropp (INR 3)) by (simpl; lra). rewrite Rpower_Ropp.
    rewrite Rpower_pow by lra. lra. }
  rewrite <- E. apply Rle_Rpower; lra.
Qed.

(** X14.  On both plotting grids, [np.linspace(0.01, 1000, 2000)] and
    [np.logspace(-3, 5, 2000)], [theta_cubed] and [dtheta_dx] are evaluated
    at all 2000 points without a domain error, and all values are
    positive. *)
Theorem cox_voinov_grids_defined :
  (exists t3 d,
     CoxVoinov.theta_cubed_linear = Ok t3 /\
     CoxVoinov.dtheta_linear = Ok d /\
     length t3 = 2000%nat /\ length d = 2000%nat /\
     Forall (fun v => 0 < v) t3 /\ Forall (fun v => 0 < v) d) /\
  (exists t3 d,
     CoxVoinov.theta_cubed_log = Ok t3 /\
     CoxVoinov.dtheta_log = Ok d /\
     length t3 = 2000%nat /\ length d = 2000%nat /\
     Forall (fun v => 0 < v) t3 /\ Forall (fun v => 0 < v) d).
Proof.
  pose proof x_star_small as Hs.
  assert (G : forall l : array,
             (forall v, In v l -> 0.001 <= v) ->
             exists t3 d,
               mapM CoxVoinov.theta_cubed l = Ok t3 /\
               mapM CoxVoinov.dtheta_dx l = Ok d /\
               length t3 = length l /\ length d = length l /\
               Forall (fun v => 0 < v) t3 /\ Forall (fun v => 0 < v) d).
  { intros l Hl.
    assert (D : forall v, In v l ->
              exists t d,
                CoxVoinov.theta_cubed v = Ok t /\ CoxVoinov.dtheta_dx v = Ok d /\
                0 < t /\ 0 < d).
    { intros v Hv. apply cox_voinov_defined. specialize (Hl v Hv). lra. }
    exists (map (fun a => value (CoxVoinov.theta_cubed a)) l),
           (map (fun a => value (CoxVoinov.dtheta_dx a)) l).
    split; [apply mapM_defined; intros a Ha;
            destruct (D a Ha) as (t & d & E & _); eauto |].
    split; [apply mapM_defined; intros a Ha;
            destruct (D a Ha) as (t & d & _ & E & _); eauto |].
    rewrite !length_map. split; [reflexivity | split; [reflexivity |]].
    split; apply Forall_map, Forall_forall; intros a Ha;
      destruct (D a Ha) as (t & d & E1 & E2 & P1 & P2).
    - now rewrite E1.
    - now rewrite E2. }
  split.
  - destruct (G CoxVoinov.x_linear) as (t3 & d & E1 & E2 & L1 & L2 & P).
    { intros v Hv. unfold CoxVoinov.x_linear in Hv.
      apply linspace_lower in Hv; lra. }
    exists t3, d. unfold CoxVoinov.x_linear in L1, L2.
    rewrite linspace_length in L1, L2. auto.
  - destruct (G CoxVoinov.x_log) as (t3 & d & E1 & E2 & L1 & L2 & P).
    { apply logspace_lower. }
    exists t3, d. unfold CoxVoinov.x_log, logspace in L1, L2.
    rewrite length_map, linspace_length in L1, L2. auto.
Qed.

Lemma cox_voinov_monotone_witness :
  x_star < 1 /\ 1 < 2 /\
  exists tx ty dx dy,
    CoxVoinov.theta 1 = Ok tx /\ CoxVoinov.theta 2 = Ok ty /\
    CoxVoinov.dtheta_dx 1 = Ok dx /\ CoxVoinov.dtheta_dx 2 = Ok dy /\
    0 < tx < ty /\ 0 < dy < dx.
Proof.
  assert (H1 : x_star < 1) by (pose proof x_star_small; lra).
  assert (H2 : 1 < 2) by lra.
  split; [exact H1 | split; [exact H2 |]].
  exact (cox_voinov_monotone 1 2 H1 H2).
Defined.

End CoxVoinovGrids.


(** ** Boundary residuals and the log-log data *)

Section BoundaryResiduals.
Import Np.

Lemma getitem_err {A : Type} (a : list A) (i : nat) :
  getitem a i = Err IndexError <-> (length a <= i)%nat.
Proof.
  unfold getitem. destruct (nth_error a i) as [v |] eqn:E.
  - split; [discriminate |]. intros H.
    apply nth_error_None in H. congruence.
  - split; [| reflexivity]. intros _. now apply nth_error_None.
Qed.

(** X16.  [bc] fails only with IndexError, exactly when [ya] has fewer than
    two or [yb] fewer than three entries, and its result depends on
    [ya[0]], [ya[1]] and [yb[2]] alone: h''(0), h(L) and h'(L) are left
    free. *)
Theorem bc_reads_three_entries :
  forall ya yb : array,
    (Bvp.bc ya yb = Err IndexError <-> (length ya < 2 \/ length yb < 3)%nat) /\
    (forall e, Bvp.bc ya yb = Err e -> e = IndexError) /\
    (forall ya' yb' : array,
       nth_error ya' 0 = nth_error ya 0 ->
       nth_error ya' 1 = nth_error ya 1 ->
       nth_error yb' 2 = nth_error yb 2 ->
       Bvp.bc ya' yb' = Bvp.bc ya yb).
Proof.
  intros ya yb. split; [| split].
  - unfold Bvp.bc, getitem.
    destruct (nth_error ya 0) as [a0 |] eqn:E0;
      destruct (nth_error ya 1) as [a1 |] eqn:E1;
      destruct (nth_error yb 2) as [b2 |] eqn:E2; cbn [bind];
      try apply nth_error_None in E0; try apply nth_error_None in E1;
      try apply nth_error_None in E2.
    all: try (split; [intros _; lia | reflexivity]).
    split; [discriminate |]. intros [H | H].
    + assert (nth_error ya 1 <> None) by congruence.
      apply nth_error_Some in H0. lia.
    + assert (nth_error yb 2 <> None) by congruence.
      apply nth_error_Some in H0. lia.
  - intros e0. unfold Bvp.bc, getitem.
    destruct (nth_error ya 0); destruct (nth_error ya 1);
      destruct (nth_error yb 2); cbn [bind]; congruence.
  - intros ya' yb' H0 H1 H2. unfold Bvp.bc, getitem.
    now rewrite H0, H1, H2.
Qed.

Lemma bc_reads_three_entries_witness :
  nth_error [0; 1; 7] 0 = nth_error [0; 1; 5] 0 /\
  nth_error [0; 1; 7] 1 = nth_error [0; 1; 5] 1 /\
  nth_error [9; 8; 0] 2 = nth_error [3; 4; 0] 2 /\
  Bvp.bc [0; 1; 7] [9; 8; 0] = Bvp.bc [0; 1; 5] [3; 4; 0].
Proof.
  repeat (split; [reflexivity |]).
  exact (proj2 (proj2 (bc_reads_three_entries [0; 1; 5] [3; 4; 0]))
           [0; 1; 7] [9; 8; 0] eq_refl eq_refl eq_refl).
Defined.

End BoundaryResiduals.

Section LogLogData.
Import Np Scipy.

(** The entries of [np.clip(np.abs(a), a_min, None)]. *)
Lemma clip_abs_entry (a : array) (a_min : R) (j : nat) :
  0 < a_min -> (j < length a)%nat ->
  let s := nth j (clip_min (abs a) a_min) 0 in
  s = Rmax a_min (Rabs (nth j a 0)) /\
  a_min <= s /\
  exists l, log s = Ok l.
Proof.
  intros Hm Hj s.
  assert (E : s = Rmax a_min (Rabs (nth j a 0))).
  { unfold s, clip_min, abs. rewrite map_map.
    rewrite (nth_map_in _ a 0 j) by exact Hj.
    destruct (Rlt_dec (Rabs (nth j a 0)) a_min) as [Lt | Ge].
    - rewrite Rmax_left by lra. reflexivity.
    - rewrite Rmax_right by lra. reflexivity. }
  assert (B : a_min <= s) by (rewrite E; apply Rmax_l).
  split; [exact E | split; [exact B |]].
  exists (ln s). unfold log.
  destruct (Rlt_dec 0 s) as [_ | N]; [reflexivity | lra].
Qed.

(** X17.  Whatever [solve_bvp] returns, [George-Zhang-v1.3.py] obtains the
    log-log data: [h_p_safe] and [h_pp_safe] have 1000 entries, each the
    larger of 1e-20 and the magnitude of the solution entry, so each is at
    least 1e-20 and has a logarithm. *)
Theorem loglog_data_is_positive :
  forall solve_bvp : solver,
    (forall f b x y tol max_nodes,
        well_shaped (solve_bvp f b x y tol max_nodes)) ->
    exists stdout h h_p h_pp h_p_safe h_pp_safe,
      GeorgeZhang_v1_3.main solve_bvp
      = (stdout, Ok (h, h_p, h_pp, h_p_safe, h_pp_safe)) /\
      length h_p_safe = 1000%nat /\ length h_pp_safe = 1000%nat /\
      forall j, (j < 1000)%nat ->
        nth j h_p_safe 0 = Rmax 1e-20 (Rabs (nth j h_p 0)) /\
        nth j h_pp_safe 0 = Rmax 1e-20 (Rabs (nth j h_pp 0)) /\
        1e-20 <= nth j h_p_safe 0 /\ 1e-20 <= nth j h_pp_safe 0 /\
        (exists l, log (nth j h_p_safe 0) = Ok l) /\
        (exists l, log (nth j h_pp_safe 0) = Ok l).
Proof.
  intros solve_bvp Hs.
  pose proof (linear_y_init_rows GeorgeZhang_v1_3.x_init) as E.
  fold GeorgeZhang_v1_3.y_init in E.
  set (y0 := [GeorgeZhang_v1_3.x_init;
              repeat 1.0 (length GeorgeZhang_v1_3.x_init);
              repeat 0.0 (length GeorgeZhang_v1_3.x_init)]) in *.
  set (r := solve_bvp GeorgeZhang_v1_3.ode_system GeorgeZhang_v1_3.bc
              GeorgeZhang_v1_3.x_init y0 default_tol default_max_nodes).
  set (x_plot := linspace 0 GeorgeZhang_v1_3.L 1000).
  destruct (shape2_rows _ _ (Hs _ _ _ _ _ _ x_plot : shape2 (sol r x_plot) 3 _))
    as (h & h_p & h_pp & S & L0 & L1 & L2).
  unfold x_plot in L0, L1, L2. rewrite linspace_length in L0, L1, L2.
  exists (if negb (Z.eqb (status r) 0)
          then [GeorgeZhang_v1_3.warning; message r] else []),
         h, h_p, h_pp,
         (clip_min (abs h_p) 1e-20), (clip_min (abs h_pp) 1e-20).
  split.
  - unfold GeorgeZhang_v1_3.main. rewrite E. fold r. fold x_plot.
    rewrite S. reflexivity.
  - unfold clip_min, abs. rewrite !length_map.
    split; [exact L1 | split; [exact L2 |]].
    intros j Hj.
    destruct (clip_abs_entry h_p 1e-20 j) as (A1 & A2 & A3); [lra | lia |].
    destruct (clip_abs_entry h_pp 1e-20 j) as (B1 & B2 & B3); [lra | lia |].
    repeat split; assumption.
Qed.

Lemma loglog_data_is_positive_witness :
  let solve_bvp : solver :=
    fun _ _ _ _ _ _ =>
      {| sol := fun xs => [xs; map (fun _ => 1) xs; map (fun _ => 0) xs];
         status := 2;
         message := "A singular Jacobian encountered."%string |} in
  (forall f b x y tol max_nodes,
      well_shaped (solve_bvp f b x y tol max_nodes)) /\
  exists stdout h h_p h_pp h_p_safe h_pp_safe,
    GeorgeZhang_v1_3.main solve_bvp
    = (stdout, Ok (h, h_p, h_pp, h_p_safe, h_pp_safe)) /\
    length h_p_safe = 1000%nat /\ length h_pp_safe = 1000%nat /\
    forall j, (j < 1000)%nat ->
      nth j h_p_safe 0 = Rmax 1e-20 (Rabs (nth j h_p 0)) /\
      nth j h_pp_safe 0 = Rmax 1e-20 (Rabs (nth j h_pp 0)) /\
      1e-20 <= nth j h_p_safe 0 /\ 1e-20 <= nth j h_pp_safe 0 /\
      (exists l, log (nth j h_p_safe 0) = Ok l) /\
      (exists l, log (nth j h_pp_safe 0) = Ok l).
Proof.
  intros solve_bvp.
  assert (Hs : forall f b x y tol max_nodes,
             well_shaped (solve_bvp f b x y tol max_nodes)).
  { intros f b x y tol max_nodes xs. unfold solve_bvp. cbn [sol].
    apply shape2_of_rows; rewrite ?length_map; reflexivity. }
  split; [exact Hs |].
  exact (loglog_data_is_positive solve_bvp Hs).
Defined.

End LogLogData.
